(** * The three-provider comparison page: response normalizer, provider
      adapters, query history and upload handlers

    A shallow embedding of the component [LLMComparisonPlatform] and of the
    helpers it closes over, followed by the properties of the specification
    that were checked against it.

    JavaScript strings are sequences of UTF-16 code units; the regular
    expressions of [standardizeResponse] carry no [u] flag, so they too work
    on code units.  A string is therefore a [list N]. *)

From Stdlib Require Import String Ascii.
From Stdlib Require Import Numbers.DecimalString.
From Stdlib Require Import List ZArith NArith Bool Lia Sorted.
Import ListNotations.

Set Implicit Arguments.

(* ===================================================================== *)
(** ** JavaScript strings *)
(* ===================================================================== *)

Module JS.

Definition char := N.
Definition jsstring := list char.

(** An ASCII literal of the source, as code units. *)
Definition lit (s : string) : jsstring :=
  map N_of_ascii (list_ascii_of_string s).
Arguments lit s%_string.

Definition LF : char := 10%N.
Definition CR : char := 13%N.
Definition SP : char := 32%N.

(** ECMAScript LineTerminator: what [.] refuses, and where [^] and [$]
    anchor under the [m] flag. *)
Definition is_line_terminator (c : char) : bool :=
  (c =? 0x0A)%N || (c =? 0x0D)%N || (c =? 0x2028)%N || (c =? 0x2029)%N.

(** ECMAScript WhiteSpace together with LineTerminator: what
    [String.prototype.trim] removes. *)
Definition is_white_space (c : char) : bool :=
  (c =? 0x09)%N || (c =? 0x0B)%N || (c =? 0x0C)%N || (c =? 0x20)%N
  || (c =? 0xA0)%N || (c =? 0x1680)%N
  || ((0x2000 <=? c)%N && (c <=? 0x200A)%N)
  || (c =? 0x202F)%N || (c =? 0x205F)%N || (c =? 0x3000)%N
  || (c =? 0xFEFF)%N
  || is_line_terminator c.

Definition is_digit (c : char) : bool := (0x30 <=? c)%N && (c <=? 0x39)%N.
Definition is_lower (c : char) : bool := (0x61 <=? c)%N && (c <=? 0x7A)%N.
Definition is_not (d : char) (c : char) : bool := negb (c =? d)%N.
Definition not_line_terminator (c : char) : bool :=
  negb (is_line_terminator c).

Fixpoint take_while (p : char -> bool) (s : jsstring) : jsstring :=
  match s with
  | [] => []
  | c :: s' => if p c then c :: take_while p s' else []
  end.

Fixpoint drop_while (p : char -> bool) (s : jsstring) : jsstring :=
  match s with
  | [] => []
  | c :: s' => if p c then drop_while p s' else s
  end.

(** [strip_prefix p s] is the rest of [s] after the prefix [p], when [s]
    starts with [p]. *)
Fixpoint strip_prefix (p s : jsstring) : option jsstring :=
  match p, s with
  | [], _ => Some s
  | _ :: _, [] => None
  | a :: p', c :: s' => if (a =? c)%N then strip_prefix p' s' else None
  end.

Definition starts_with (p s : jsstring) : bool :=
  match strip_prefix p s with Some _ => true | None => false end.

(** First occurrence of [p] in [s]: the text before it and the text after
    it. *)
Fixpoint find_sub (p s : jsstring) : option (jsstring * jsstring) :=
  match strip_prefix p s with
  | Some rest => Some ([], rest)
  | None =>
      match s with
      | [] => None
      | c :: s' =>
          match find_sub p s' with
          | Some (before, rest) => Some (c :: before, rest)
          | None => None
          end
      end
  end.

Definition is_empty (s : jsstring) : bool :=
  match s with [] => true | _ :: _ => false end.

(** [String.prototype.trim]. *)
Definition trim (s : jsstring) : jsstring :=
  rev (drop_while is_white_space (rev (drop_while is_white_space s))).

(** [s.split(sep)] for a one-unit separator: never an empty array. *)
Fixpoint split_on (sep : char) (s : jsstring) : list jsstring :=
  match s with
  | [] => [[]]
  | c :: s' =>
      if (c =? sep)%N then [] :: split_on sep s'
      else match split_on sep s' with
           | [] => [[c]]
           | l :: ls => (c :: l) :: ls
           end
  end.

(** [parts.join(sep)]. *)
Fixpoint join (sep : jsstring) (parts : list jsstring) : jsstring :=
  match parts with
  | [] => []
  | [p] => p
  | p :: ps => p ++ sep ++ join sep ps
  end.

(** Decimal rendering of an integer inside a template literal. *)
Definition of_Z (z : Z) : jsstring :=
  lit (NilEmpty.string_of_int (Z.to_int z)).

(** JavaScript truthiness of a string. *)
Definition truthy (s : jsstring) : bool := negb (is_empty s).

End JS.

Import JS.

(* ===================================================================== *)
(** ** [String.prototype.replace] with a global regular expression *)
(* ===================================================================== *)

Module Regex.

(** A pattern is given by what it does at one position: [m bol s] looks at
    the input [s] from the current position on, [bol] telling whether that
    position is the start of the input or follows a line terminator, and
    answers with the replacement text and the input left after the match.
    Every pattern of [standardizeResponse] matches at least one code
    unit. *)
Definition matcher := bool -> jsstring -> option (jsstring * jsstring).

(** The scan of a [g] replace: positions are tried from left to right; a
    match is replaced and the scan resumes right after it, a position
    without a match keeps its code unit.  [skip] counts the code units of
    the current match that are still to be passed over. *)
Fixpoint replace_from (m : matcher) (skip : nat) (bol : bool)
         (s : jsstring) : jsstring :=
  match s with
  | [] => []
  | c :: s' =>
      match skip with
      | S k => replace_from m k (is_line_terminator c) s'
      | O =>
          match m bol s with
          | Some (repl, rest) =>
              repl ++ replace_from m (length s' - length rest)
                                   (is_line_terminator c) s'
          | None => c :: replace_from m 0 (is_line_terminator c) s'
          end
      end
  end.

Definition replace_all (m : matcher) (s : jsstring) : jsstring :=
  replace_from m 0 true s.

(** [/\r\n/g] replaced by ['\n']. *)
Definition re_crlf : matcher := fun _ s =>
  match strip_prefix [CR; LF] s with
  | Some rest => Some ([LF], rest)
  | None => None
  end.

(** [/\n{3,}/g] replaced by ['\n\n']: the quantifier is greedy. *)
Definition re_blank_run : matcher := fun _ s =>
  if (3 <=? length (take_while (N.eqb LF) s))%nat
  then Some ([LF; LF], drop_while (N.eqb LF) s)
  else None.

(** [/```[a-z]*\n([\s\S]*?)```/g] replaced by [open $1 close]: the greedy
    [[a-z]*] cannot give letters back to reach the [\n], and the lazy group
    stops at the first closing fence. *)
Definition re_code_fence (open close : jsstring) : matcher := fun _ s =>
  match strip_prefix (lit "```") s with
  | Some s1 =>
      match drop_while is_lower s1 with
      | c :: s2 =>
          if (c =? LF)%N then
            match find_sub (lit "```") s2 with
            | Some (inner, rest) => Some (open ++ inner ++ close, rest)
            | None => None
            end
          else None
      | [] => None
      end
  | None => None
  end.

(** The optional blank of [ ?]: greedy, and nothing after it can fail. *)
Definition skip_space (s : jsstring) : jsstring :=
  match s with
  | c :: s' => if (c =? SP)%N then s' else s
  | [] => []
  end.

(** [/^marker ?(.*$)/gm] replaced by [glyph ' ' $1]: [.*] runs to the next
    line terminator or to the end, where [$] holds. *)
Definition re_line_marker (marker glyph : jsstring) : matcher := fun bol s =>
  if bol then
    match strip_prefix marker s with
    | Some s1 =>
        let s2 := skip_space s1 in
        Some (glyph ++ [SP] ++ take_while not_line_terminator s2,
              drop_while not_line_terminator s2)
    | None => None
    end
  else None.

(** [/^(\d+)\. ?(.*$)/gm] replaced by [glyph ' ' $1 '. ' $2]. *)
Definition re_numbered (glyph : jsstring) : matcher := fun bol s =>
  if bol then
    match take_while is_digit s, drop_while is_digit s with
    | (_ :: _) as digits, c :: s1 =>
        if (c =? 0x2E)%N then
          let s2 := skip_space s1 in
          Some (glyph ++ [SP] ++ digits ++ lit ". "
                      ++ take_while not_line_terminator s2,
                drop_while not_line_terminator s2)
        else None
    | _, _ => None
    end
  else None.

(** [/d([^d]+)d/g] for a one-unit delimiter [d], replaced by
    [open $1 close]: the group takes every unit up to the next [d]. *)
Definition re_delimited (d : char) (open close : jsstring) : matcher :=
  fun _ s =>
  match s with
  | c :: s1 =>
      if (c =? d)%N then
        match take_while (is_not d) s1, drop_while (is_not d) s1 with
        | (_ :: _) as inner, _ :: rest => Some (open ++ inner ++ close, rest)
        | _, _ => None
        end
      else None
  | [] => None
  end.

(** [/dd([^d]+)dd/g] replaced by [$1]. *)
Definition re_doubled (d : char) : matcher := fun _ s =>
  match strip_prefix [d; d] s with
  | Some s1 =>
      match take_while (is_not d) s1 with
      | (_ :: _) as inner =>
          match strip_prefix [d; d] (drop_while (is_not d) s1) with
          | Some rest => Some (inner, rest)
          | None => None
          end
      | [] => None
      end
  | None => None
  end.

(** [/\[([^\]]+)\]\(([^)]+)\)/g] replaced by [$1]. *)
Definition re_link : matcher := fun _ s =>
  match s with
  | c :: s1 =>
      if (c =? 0x5B)%N then
        match take_while (is_not 0x5D%N) s1 with
        | (_ :: _) as text =>
            match strip_prefix [0x5D%N; 0x28%N]
                               (drop_while (is_not 0x5D%N) s1) with
            | Some s2 =>
                match take_while (is_not 0x29%N) s2,
                      drop_while (is_not 0x29%N) s2 with
                | _ :: _, _ :: rest => Some (text, rest)
                | _, _ => None
                end
            | None => None
            end
        | [] => None
        end
      else None
  | [] => None
  end.

End Regex.

Import Regex.

(* ===================================================================== *)
(** ** The response normalizer, [standardizeResponse] *)
(* ===================================================================== *)

Module Normalizer.

Definition glyph_small  : jsstring := [0xD83D; 0xDD39]%N.  (* U+1F539 *)
Definition glyph_medium : jsstring := [0xD83D; 0xDD37]%N.  (* U+1F537 *)
Definition glyph_large  : jsstring := [0xD83D; 0xDCA0]%N.  (* U+1F4A0 *)
Definition glyph_bullet : jsstring := [0x2022]%N.          (* U+2022  *)
Definition glyph_pin    : jsstring := [0xD83D; 0xDCCD]%N.  (* U+1F4CD *)
Definition glyph_note   : jsstring := [0xD83D; 0xDCDD]%N.  (* U+1F4DD *)
Definition bracket_open  : jsstring := [0x300C]%N.         (* U+300C  *)
Definition bracket_close : jsstring := [0x300D]%N.         (* U+300D  *)

(** [.trim().replace(/\r\n/g, '\n').replace(/\n{3,}/g, '\n\n')] *)
Definition cleanup (text : jsstring) : jsstring :=
  replace_all re_blank_run (replace_all re_crlf (trim text)).

Definition code_blocks (s : jsstring) : jsstring :=
  replace_all (re_code_fence bracket_open bracket_close) s.

Definition format_headers (s : jsstring) : jsstring :=
  replace_all (re_line_marker (lit "#") glyph_large)
    (replace_all (re_line_marker (lit "##") glyph_medium)
       (replace_all (re_line_marker (lit "###") glyph_small) s)).

Definition format_lists (s : jsstring) : jsstring :=
  replace_all (re_numbered glyph_pin)
    (replace_all (re_line_marker (lit "-") glyph_bullet)
       (replace_all (re_line_marker (lit "*") glyph_bullet) s)).

Definition format_quotes (s : jsstring) : jsstring :=
  replace_all (re_line_marker (lit ">") glyph_note) s.

Definition inline_code (s : jsstring) : jsstring :=
  replace_all (re_delimited 0x60%N bracket_open bracket_close) s.

Definition strip_emphasis (s : jsstring) : jsstring :=
  replace_all (re_delimited 0x5F%N [] [])
    (replace_all (re_delimited 0x2A%N [] [])
       (replace_all (re_doubled 0x5F%N)
          (replace_all (re_doubled 0x2A%N) s))).

Definition strip_links (s : jsstring) : jsstring :=
  replace_all re_link s.

(** [.split('\n').map(line => line.trim()).filter(line => line)
     .join('\n\n')] *)
Definition respace (s : jsstring) : jsstring :=
  join [LF; LF] (filter truthy (map trim (split_on LF s))).

(** The heading, list and note substitutions, in the order of the
    source. *)
Definition glyph_steps (s : jsstring) : jsstring :=
  format_quotes (format_lists (format_headers s)).

Definition standardizeResponse (text : jsstring) : jsstring :=
  if negb (truthy text) then []
  else
    let formatted := cleanup text in
    let formatted := code_blocks formatted in
    let formatted := format_headers formatted in
    let formatted := format_lists formatted in
    let formatted := inline_code (format_quotes formatted) in
    let formatted := strip_emphasis formatted in
    let formatted := strip_links formatted in
    respace formatted.

End Normalizer.

Import Normalizer.

(* ===================================================================== *)
(** ** Texts as lines: what the [^...$] substitutions do to one line *)
(* ===================================================================== *)

Module Lines.

(** A text cut at its line terminators: the terminated lines, each with
    its terminator, and the last, unterminated line. *)
Definition lines : Type := (list (jsstring * char) * jsstring)%type.

Fixpoint split_lines (s : jsstring) : lines :=
  match s with
  | [] => ([], [])
  | c :: s' =>
      let (ls, last) := split_lines s' in
      if is_line_terminator c then (([], c) :: ls, last)
      else match ls with
           | [] => ([], c :: last)
           | (l, t) :: ls' => ((c :: l, t) :: ls', last)
           end
  end.

Fixpoint unlines_from (ls : list (jsstring * char)) (last : jsstring)
  : jsstring :=
  match ls with
  | [] => last
  | (l, t) :: ls' => l ++ t :: unlines_from ls' last
  end.

Definition unlines (x : lines) : jsstring := unlines_from (fst x) (snd x).

Definition map_lines (f : jsstring -> jsstring) (x : lines) : lines :=
  (map (fun lt => (f (fst lt), snd lt)) (fst x), f (snd x)).

(** The end of a line: the end of the text or a line terminator. *)
Definition at_line_end (after : jsstring) : bool :=
  match after with
  | [] => true
  | t :: _ => is_line_terminator t
  end.

Definition terminator_free (line : jsstring) : bool :=
  forallb not_line_terminator line.

(** Every line free of line terminators, every terminator one. *)
Definition well_formed (x : lines) : Prop :=
  Forall (fun lt => terminator_free (fst lt) = true
                    /\ is_line_terminator (snd lt) = true) (fst x)
  /\ terminator_free (snd x) = true.

(** A rule rewrites the lines it accepts and leaves the others. *)
Definition rule := jsstring -> option jsstring.

Definition apply_rule (r : rule) (line : jsstring) : jsstring :=
  match r line with
  | Some replaced => replaced
  | None => line
  end.

(** A line that starts with [marker]: the glyph, a blank, and the line
    after the marker and one optional blank. *)
Definition marker_rule (marker glyph : jsstring) : rule := fun line =>
  match strip_prefix marker line with
  | Some after => Some (glyph ++ [SP] ++ skip_space after)
  | None => None
  end.

(** A line that starts with digits and a full stop. *)
Definition numbered_rule (glyph : jsstring) : rule := fun line =>
  match take_while is_digit line, drop_while is_digit line with
  | (_ :: _) as digits, c :: after =>
      if (c =? 0x2E)%N
      then Some (glyph ++ [SP] ++ digits ++ lit ". " ++ skip_space after)
      else None
  | _, _ => None
  end.

Definition header_line (line : jsstring) : jsstring :=
  apply_rule (marker_rule (lit "#") glyph_large)
    (apply_rule (marker_rule (lit "##") glyph_medium)
       (apply_rule (marker_rule (lit "###") glyph_small) line)).

Definition list_line (line : jsstring) : jsstring :=
  apply_rule (numbered_rule glyph_pin)
    (apply_rule (marker_rule (lit "-") glyph_bullet)
       (apply_rule (marker_rule (lit "*") glyph_bullet) line)).

Definition quote_line (line : jsstring) : jsstring :=
  apply_rule (marker_rule (lit ">") glyph_note) line.

Definition glyph_line (line : jsstring) : jsstring :=
  quote_line (list_line (header_line line)).

(** The markers the substitutions put at the head of a line. *)
Definition glyphs : list jsstring :=
  [glyph_small; glyph_medium; glyph_large; glyph_bullet; glyph_pin;
   glyph_note].

Definition carries_glyph (line : jsstring) : bool :=
  existsb (fun g => starts_with g line) glyphs.

End Lines.

Import Lines.

(* ===================================================================== *)
(** ** Values, exceptions and property access *)
(* ===================================================================== *)

Module Runtime.

(** A thrown value, as far as the [catch] clauses tell values apart:
    [error instanceof Error ? error.message : <fallback>]. *)
Inductive thrown :=
| ErrorObject (message : jsstring)
| OtherValue.

(** A computation that either throws or returns. *)
Definition M (A : Type) : Type := (thrown + A)%type.

Definition ret {A} (a : A) : M A := inr a.
Definition throw {A} (e : thrown) : M A := inl e.

Definition bind {A B} (m : M A) (k : A -> M B) : M B :=
  match m with
  | inl e => inl e
  | inr a => k a
  end.

(** [try { body } catch (error) { handler }] *)
Definition try_catch {A} (body : M A) (handler : thrown -> M A) : M A :=
  match body with
  | inl e => handler e
  | inr a => inr a
  end.

(** What [response.json()] can resolve to, and [undefined]. *)
#[warnings="-register-all"]
Inductive value :=
| VUndefined
| VNull
| VBool (b : bool)
| VNumber (z : Z)
| VString (s : jsstring)
| VArray (items : list value)
| VObject (fields : list (jsstring * value)).

Inductive key :=
| Field (name : string)
| Index (i : nat).

Definition key_name (k : key) : jsstring :=
  match k with
  | Field name => lit name
  | Index i => of_Z (Z.of_nat i)
  end.

Fixpoint jsstring_eqb (a b : jsstring) : bool :=
  match a, b with
  | [], [] => true
  | x :: a', y :: b' => (x =? y)%N && jsstring_eqb a' b'
  | _, _ => false
  end.

Fixpoint lookup (name : jsstring) (fields : list (jsstring * value))
  : value :=
  match fields with
  | [] => VUndefined
  | (n, v) :: rest => if jsstring_eqb n name then v else lookup name rest
  end.

Section Engine.

(** The wording of the engine's TypeError for a property read on
    [undefined] or [null]. *)
Variable type_error : value -> key -> jsstring.

(** [v[k]], for the keys the adapters read: the field names [choices],
    [message], [content], [candidates], [parts], [text] and the index
    [0].  None of them is an own or inherited property of an array, a
    string, a number or a boolean, apart from the elements of an array
    and the units of a string. *)
Definition get (v : value) (k : key) : M value :=
  match v with
  | VUndefined | VNull => throw (ErrorObject (type_error v k))
  | VObject fields => ret (lookup (key_name k) fields)
  | VArray items =>
      match k with
      | Index i => ret (nth i items VUndefined)
      | Field _ => ret VUndefined
      end
  | VString s =>
      match k with
      | Index i =>
          ret (match nth_error s i with
               | Some c => VString [c]
               | None => VUndefined
               end)
      | Field _ => ret VUndefined
      end
  | VBool _ | VNumber _ => ret VUndefined
  end.

End Engine.

(** The message of [catch (error)] clauses:
    [error instanceof Error ? error.message : fallback]. *)
Definition message_or (fallback : jsstring) (e : thrown) : jsstring :=
  match e with
  | ErrorObject m => m
  | OtherValue => fallback
  end.

(** [x || fallback] on a nullable string. *)
Definition or_default (x : option jsstring) (fallback : jsstring)
  : jsstring :=
  match x with
  | Some s => if truthy s then s else fallback
  | None => fallback
  end.

(** [!x] on a nullable string. *)
Definition missing (x : option jsstring) : bool :=
  match x with
  | Some s => negb (truthy s)
  | None => true
  end.

(** A nullable string inside a template literal. *)
Definition interpolate (x : option jsstring) : jsstring :=
  match x with
  | Some s => s
  | None => lit "undefined"
  end.

End Runtime.

Import Runtime.

Declare Scope js_scope.
Delimit Scope js_scope with js.
Notation "x <- m ;; k" := (bind m (fun x => k))
  (at level 61, m at next level, right associativity) : js_scope.
Open Scope js_scope.

(* ===================================================================== *)
(** ** The provider adapters: [callOpenAI], [callGemini], [callPerplexity] *)
(* ===================================================================== *)

Module Adapters.

(** [process.env.NEXT_PUBLIC_*_API_KEY], as [API_CONFIG] reads them. *)
Record api_keys := {
  openai_key : option jsstring;
  gemini_key : option jsstring;
  perplexity_key : option jsstring
}.

(** The parts of a [fetch] call that differ between the adapters. *)
Record request := {
  req_url : jsstring;
  req_authorization : option jsstring;
  req_model : option jsstring;
  req_content : jsstring
}.

(** A [Response]: [ok], [status], and what [text()] and [json()] settle
    to. *)
Record response := {
  ok : bool;
  status : Z;
  text : M jsstring;
  json : M value
}.

(** The instruction header the three adapters put before the prompt. *)
Definition formattedPrompt (userType queryType : option jsstring)
           (prompt : jsstring) : jsstring :=
  lit "You are an expert at providing tailored responses based on user type and query type."
  ++ [LF] ++ lit "User Type: " ++ or_default userType (lit "general user")
  ++ [LF] ++ lit "Query Type: " ++ or_default queryType (lit "general query")
  ++ [LF]
  ++ [LF] ++ lit "Please format your response using the following structure:"
  ++ [LF] ++ lit "# Main points as top-level headings"
  ++ [LF] ++ lit "## Important details as subheadings"
  ++ [LF] ++ lit "### Additional information as smaller headings"
  ++ [LF] ++ lit "- Use bullet points for lists"
  ++ [LF] ++ lit "1. Use numbered lists for steps"
  ++ [LF] ++ lit "> Use blockquotes for important notes"
  ++ [LF]
  ++ [LF] ++ lit "Your response:"
  ++ [LF] ++ prompt.

(** [Error (<provider>): <message>] *)
Definition error_text (provider : string) (message : jsstring) : jsstring :=
  lit "Error (" ++ lit provider ++ lit "): " ++ message.

(** The three adapters side by side. *)
Inductive provider := OpenAI | GeminiAPI | PerplexityAPI.

Definition provider_name (p : provider) : string :=
  match p with
  | OpenAI => "OpenAI"
  | GeminiAPI => "Gemini"
  | PerplexityAPI => "Perplexity"
  end.

Section Environment.

Variable type_error : value -> key -> jsstring.
Variable keys : api_keys.
Variables userType queryType : option jsstring.

(** What the network answers to a request: [fetch] settles, with a
    response or with a rejection. *)
Variable fetch : request -> M response.

(** Whether the 30000 ms timer of [timeoutPromise] fires before the
    request settles. *)
Variable timer_first : request -> bool.

(** [Promise.race([promise, timer])] *)
Definition timeoutPromise (req : request) : M response :=
  if timer_first req then throw (ErrorObject (lit "Request timed out"))
  else fetch req.

Definition openai_request (prompt : jsstring) : request :=
  {| req_url := lit "https://api.openai.com/v1" ++ lit "/chat/completions";
     req_authorization :=
       Some (lit "Bearer " ++ interpolate (openai_key keys));
     req_model := Some (lit "gpt-4o-mini-2024-07-18");
     req_content := formattedPrompt userType queryType prompt |}.

(** [data.choices[0].message.content] *)
Definition chat_completion_text (data : value) : M value :=
  choices <- get type_error data (Field "choices") ;;
  first <- get type_error choices (Index 0) ;;
  message <- get type_error first (Field "message") ;;
  get type_error message (Field "content").

(** [data.candidates[0].content.parts[0].text] *)
Definition generated_text (data : value) : M value :=
  candidates <- get type_error data (Field "candidates") ;;
  first <- get type_error candidates (Index 0) ;;
  content <- get type_error first (Field "content") ;;
  parts <- get type_error content (Field "parts") ;;
  part <- get type_error parts (Index 0) ;;
  get type_error part (Field "text").

Definition callOpenAI_body (prompt : jsstring) : M value :=
  response <- timeoutPromise (openai_request prompt) ;;
  if negb (ok response) then
    errorBody <- text response ;;
    throw (ErrorObject (lit "HTTP error! status: " ++ of_Z (status response)
                          ++ lit ", message: " ++ errorBody))
  else
    data <- json response ;;
    chat_completion_text data.

Definition callOpenAI (prompt : jsstring) : M value :=
  try_catch (callOpenAI_body prompt)
    (fun error =>
       ret (VString (error_text "OpenAI"
                       (message_or (lit "Unknown error") error)))).

Definition gemini_request (prompt : jsstring) : request :=
  {| req_url := lit "https://generativelanguage.googleapis.com/v1beta"
                  ++ lit "/models/" ++ lit "gemini-2.0-flash"
                  ++ lit ":generateContent?key="
                  ++ interpolate (gemini_key keys);
     req_authorization := None;
     req_model := None;
     req_content := formattedPrompt userType queryType prompt |}.

Definition callGemini_body (prompt : jsstring) : M value :=
  if missing (gemini_key keys) then
    throw (ErrorObject (lit "Gemini API key not found"))
  else
    response <- fetch (gemini_request prompt) ;;
    if negb (ok response) then
      throw (ErrorObject (lit "HTTP error! status: "
                            ++ of_Z (status response)))
    else
      data <- json response ;;
      generated_text data.

Definition callGemini (prompt : jsstring) : M value :=
  try_catch (callGemini_body prompt)
    (fun error =>
       ret (VString (error_text "Gemini"
                       (message_or (lit "Unknown error") error)))).

Definition perplexity_request (prompt : jsstring) : request :=
  {| req_url := lit "https://api.perplexity.ai" ++ lit "/chat/completions";
     req_authorization :=
       Some (lit "Bearer " ++ interpolate (perplexity_key keys));
     req_model := Some (lit "sonar");
     req_content := formattedPrompt userType queryType prompt |}.

Definition callPerplexity_body (prompt : jsstring) : M value :=
  if missing (perplexity_key keys) then
    throw (ErrorObject (lit "Perplexity API key not found"))
  else
    response <- fetch (perplexity_request prompt) ;;
    if negb (ok response) then
      errorText <- text response ;;
      throw (ErrorObject (lit "HTTP error! status: "
                            ++ of_Z (status response)
                            ++ lit ", message: " ++ errorText))
    else
      data <- json response ;;
      chat_completion_text data.

Definition callPerplexity (prompt : jsstring) : M value :=
  try_catch (callPerplexity_body prompt)
    (fun error =>
       ret (VString (error_text "Perplexity"
                       (message_or (lit "Unknown error") error)))).

Definition adapter (p : provider) : jsstring -> M value :=
  match p with
  | OpenAI => callOpenAI
  | GeminiAPI => callGemini
  | PerplexityAPI => callPerplexity
  end.

(** What the adapter's awaited request settles to. *)
Definition settled (p : provider) (prompt : jsstring) : M response :=
  match p with
  | OpenAI => timeoutPromise (openai_request prompt)
  | GeminiAPI => fetch (gemini_request prompt)
  | PerplexityAPI => fetch (perplexity_request prompt)
  end.

(** The text the adapter reads out of a parsed body. *)
Definition answer_of (p : provider) (data : value) : M value :=
  match p with
  | OpenAI | PerplexityAPI => chat_completion_text data
  | GeminiAPI => generated_text data
  end.

(** The key the adapter insists on before it sends anything;
    [callOpenAI] has no such guard. *)
Definition guarded_key (p : provider) : option (option jsstring) :=
  match p with
  | OpenAI => None
  | GeminiAPI => Some (gemini_key keys)
  | PerplexityAPI => Some (perplexity_key keys)
  end.

End Environment.

(** What the three [catch] clauses return. *)
Definition as_error (p : provider) (e : thrown) : M value :=
  ret (VString (error_text (provider_name p)
                  (message_or (lit "Unknown error") e))).

(** The guard of the adapter, if it has one, lets the call through. *)
Definition key_present (keys : api_keys) (p : provider) : Prop :=
  forall k, guarded_key keys p = Some k -> missing k = false.

End Adapters.

Import Adapters.

(* ===================================================================== *)
(** ** Component state and its setters *)
(* ===================================================================== *)

Module Page.

(** [interface Results] *)
Record Results := {
  perplexity : jsstring;
  chatgpt : jsstring;
  gemini : jsstring
}.

(** [interface QueryResponse] *)
Record QueryResponse := {
  query : jsstring;
  timestamp : Z;
  parentId : option Z;
  responses : Results
}.

(** The three keys [updateResponse] is called with. *)
Inductive LLM := Chatgpt | Perplexity | Gemini.

Definition llm_id (llm : LLM) : string :=
  match llm with
  | Chatgpt => "chatgpt"
  | Perplexity => "perplexity"
  | Gemini => "gemini"
  end.

(** [r[llm]] *)
Definition slot (llm : LLM) (r : Results) : jsstring :=
  match llm with
  | Chatgpt => chatgpt r
  | Perplexity => perplexity r
  | Gemini => gemini r
  end.

(** [{ ...r, [llm]: v }] *)
Definition set_slot (llm : LLM) (v : jsstring) (r : Results) : Results :=
  match llm with
  | Chatgpt =>
      {| perplexity := perplexity r; chatgpt := v; gemini := gemini r |}
  | Perplexity =>
      {| perplexity := v; chatgpt := chatgpt r; gemini := gemini r |}
  | Gemini =>
      {| perplexity := perplexity r; chatgpt := chatgpt r; gemini := v |}
  end.

(** The [useState] cells the handlers below read or write; [queryText] is
    the cell the source calls [query], a name the record above has
    taken. *)
Record State := {
  textSize : Z;
  queryText : jsstring;
  error : option jsstring;
  fileName : jsstring;
  fileContent : jsstring;
  selectedQuery : option Z;
  userType : option jsstring;
  queryType : option jsstring;
  isSearching : bool;
  queryHistory : list QueryResponse
}.

(** The initial values given to [useState]. *)
Definition initial_state : State :=
  {| textSize := 16; queryText := []; error := None; fileName := [];
     fileContent := []; selectedQuery := None; userType := None;
     queryType := None; isSearching := false; queryHistory := [] |}.

(** A call of a state setter; [setTextSize] and [setQueryHistory] are
    only called with updater functions. *)
Inductive call :=
| setTextSize (f : Z -> Z)
| setQuery (s : jsstring)
| setError (e : option jsstring)
| setFileName (s : jsstring)
| setFileContent (s : jsstring)
| setSelectedQuery (ts : option Z)
| setIsSearching (b : bool)
| setQueryHistory (f : list QueryResponse -> list QueryResponse).

Definition apply (c : call) (st : State) : State :=
  match c with
  | setTextSize f =>
      {| textSize := f (textSize st); queryText := queryText st;
         error := error st; fileName := fileName st;
         fileContent := fileContent st; selectedQuery := selectedQuery st;
         userType := userType st; queryType := queryType st;
         isSearching := isSearching st; queryHistory := queryHistory st |}
  | setQuery s =>
      {| textSize := textSize st; queryText := s;
         error := error st; fileName := fileName st;
         fileContent := fileContent st; selectedQuery := selectedQuery st;
         userType := userType st; queryType := queryType st;
         isSearching := isSearching st; queryHistory := queryHistory st |}
  | setError e =>
      {| textSize := textSize st; queryText := queryText st;
         error := e; fileName := fileName st;
         fileContent := fileContent st; selectedQuery := selectedQuery st;
         userType := userType st; queryType := queryType st;
         isSearching := isSearching st; queryHistory := queryHistory st |}
  | setFileName s =>
      {| textSize := textSize st; queryText := queryText st;
         error := error st; fileName := s;
         fileContent := fileContent st; selectedQuery := selectedQuery st;
         userType := userType st; queryType := queryType st;
         isSearching := isSearching st; queryHistory := queryHistory st |}
  | setFileContent s =>
      {| textSize := textSize st; queryText := queryText st;
         error := error st; fileName := fileName st;
         fileContent := s; selectedQuery := selectedQuery st;
         userType := userType st; queryType := queryType st;
         isSearching := isSearching st; queryHistory := queryHistory st |}
  | setSelectedQuery ts =>
      {| textSize := textSize st; queryText := queryText st;
         error := error st; fileName := fileName st;
         fileContent := fileContent st; selectedQuery := ts;
         userType := userType st; queryType := queryType st;
         isSearching := isSearching st; queryHistory := queryHistory st |}
  | setIsSearching b =>
      {| textSize := textSize st; queryText := queryText st;
         error := error st; fileName := fileName st;
         fileContent := fileContent st; selectedQuery := selectedQuery st;
         userType := userType st; queryType := queryType st;
         isSearching := b; queryHistory := queryHistory st |}
  | setQueryHistory f =>
      {| textSize := textSize st; queryText := queryText st;
         error := error st; fileName := fileName st;
         fileContent := fileContent st; selectedQuery := selectedQuery st;
         userType := userType st; queryType := queryType st;
         isSearching := isSearching st; queryHistory := f (queryHistory st) |}
  end.

(** The setter calls of one handler run, applied in order. *)
Definition run (calls : list call) (st : State) : State :=
  fold_left (fun s c => apply c s) calls st.

(* ------------------------------------------------------------------- *)
(** *** Text size *)

Definition handleZoomIn : list call :=
  [setTextSize (fun prevSize => Z.min (prevSize + 2) 32)].

Definition handleZoomOut : list call :=
  [setTextSize (fun prevSize => Z.max (prevSize - 2) 12)].

Inductive zoom := ZoomIn | ZoomOut.

Definition zoom_handler (z : zoom) : list call :=
  match z with
  | ZoomIn => handleZoomIn
  | ZoomOut => handleZoomOut
  end.

(* ------------------------------------------------------------------- *)
(** *** History *)

Definition loading : jsstring := lit "Loading...".

(** [prev.filter(item => item.timestamp !== timestamp)]; the branch for a
    signed-in user is empty. *)
Definition handleDeleteQuery (ts : Z) : list call :=
  [setQueryHistory
     (filter (fun item => negb (timestamp item =? ts)%Z))].

Definition handleFollowUp (q : jsstring) (ts : Z) : list call :=
  [setQuery (lit "Following up on: " ++ [0x22%N] ++ q ++ [0x22%N]
               ++ [LF; LF] ++ lit "My question: ");
   setSelectedQuery (Some ts)].

Definition createPromptWithContext (prompt : jsstring)
           (parentQuery : option QueryResponse) : jsstring :=
  match parentQuery with
  | None => prompt
  | Some parent =>
      lit "Previous question: " ++ query parent
      ++ [LF] ++ lit "Previous answers:"
      ++ [LF] ++ lit "ChatGPT: " ++ chatgpt (responses parent)
      ++ [LF] ++ lit "Gemini: " ++ gemini (responses parent)
      ++ [LF] ++ lit "Perplexity: " ++ perplexity (responses parent)
      ++ [LF; LF] ++ lit "Follow-up question: " ++ prompt
  end.

(** [selectedQuery ? queryHistory.find(q => q.timestamp === selectedQuery)
     : undefined]: a selected timestamp of [0] is falsy. *)
Definition parentQuery (st : State) : option QueryResponse :=
  match selectedQuery st with
  | Some sel =>
      if (sel =? 0)%Z then None
      else find (fun q => (timestamp q =? sel)%Z) (queryHistory st)
  | None => None
  end.

Definition contextualPrompt (st : State) : jsstring :=
  lit "User Type: " ++ or_default (userType st) (lit "Not specified")
  ++ [LF] ++ lit "Query Type: "
  ++ or_default (queryType st) (lit "Not specified")
  ++ [LF; LF]
  ++ match parentQuery st with
     | Some parent => createPromptWithContext (queryText st) (Some parent)
     | None => queryText st
     end.

(** The record [handleSearch] creates at time [now = Date.now()]. *)
Definition newQuery (st : State) (now : Z) : QueryResponse :=
  {| query := trim (queryText st);
     timestamp := now;
     parentId := option_map timestamp (parentQuery st);
     responses := {| perplexity := loading; chatgpt := loading;
                     gemini := loading |} |}.

(** The updater of the "optimistic" [setQueryHistory] that follows the
    start of the three calls. *)
Definition mark_loading (ts : Z) (q : QueryResponse) : QueryResponse :=
  if (timestamp q =? ts)%Z then
    {| query := query q; timestamp := timestamp q; parentId := parentId q;
       responses := {| perplexity := loading; chatgpt := loading;
                       gemini := loading |} |}
  else q.

(** The updater both branches of [updateResponse] pass to
    [setQueryHistory], for the timestamp of [newQuery]. *)
Definition update_slot (ts : Z) (llm : LLM) (v : jsstring)
           (q : QueryResponse) : QueryResponse :=
  if (timestamp q =? ts)%Z then
    {| query := query q; timestamp := timestamp q; parentId := parentId q;
       responses := set_slot llm v (responses q) |}
  else q.

(** [handleSearch] has no [await] of its own: the three adapter calls
    are started and [updateResponse] is entered three times, each
    stopping at its [await promise], so all its setter calls happen
    before any adapter resolves.  First the calls made before the
    adapters are started ... *)
Definition handleSearch_submit (st : State) (now : Z) : list call :=
  [setIsSearching true;
   setQueryHistory (fun prev => newQuery st now :: prev)].

(** ... then the calls made once the three requests are under way. *)
Definition handleSearch_started (now : Z) : list call :=
  [setQueryHistory (map (mark_loading now));
   setIsSearching false].

Definition handleSearch (st : State) (now : Z) : list call :=
  if negb (truthy (trim (queryText st))) then []
  else handleSearch_submit st now ++ handleSearch_started now.

(** [standardizeResponse(result)] on what the promise resolved to: the
    guard [!text] answers [''] for every falsy value, and a truthy value
    that is no string has no [trim] method. *)
Definition standardize_value (result : value) : M jsstring :=
  match result with
  | VString s => ret (standardizeResponse s)
  | VUndefined | VNull | VBool false => ret []
  | VNumber z =>
      if (z =? 0)%Z then ret []
      else throw (ErrorObject (lit "text.trim is not a function"))
  | VBool true | VArray _ | VObject _ =>
      throw (ErrorObject (lit "text.trim is not a function"))
  end.

(** The text the updater of [updateResponse] computes for the slot of a
    record that carries the query's timestamp.  When [promise] resolved
    it is [standardizeResponse(result)]: the call stands inside the
    updater handed to [setQueryHistory], which React runs at its next
    render, after the [try] block has been left, so what it throws is
    not caught by the [catch] clause.  When [promise] was rejected it is
    the text built in the [catch] clause. *)
Definition resolved_text (llm : LLM) (outcome : M value) : M jsstring :=
  match outcome with
  | inr result => standardize_value result
  | inl error =>
      ret (lit "Error (" ++ lit (llm_id llm) ++ lit "): "
             ++ message_or (lit "Unknown error") error)
  end.

(** [prev.map(q => q.timestamp === ts
                   ? { ...q, responses: { ...q.responses, [llm]: text } }
                   : q)]:
    [text] is evaluated for each record that carries the timestamp and
    for no other, and the first throw ends the map. *)
Fixpoint update_history (ts : Z) (llm : LLM) (text : M jsstring)
         (prev : list QueryResponse) : M (list QueryResponse) :=
  match prev with
  | [] => ret []
  | q :: rest =>
      q' <- (if (timestamp q =? ts)%Z
             then (v <- text ;; ret (update_slot ts llm v q))
             else ret q) ;;
      rest' <- update_history ts llm text rest ;;
      ret (q' :: rest')
  end.

(** The continuation of [updateResponse(llm, promise)] for the query
    created at [ts], once [promise] has settled with [outcome]: the page
    after React has run the updater on the history of [st].  When the
    updater throws, the render fails; the page has no error boundary, so
    React unmounts it and no state is left: [None]. *)
Definition updateResponse (ts : Z) (llm : LLM) (outcome : M value)
           (st : State) : option State :=
  match update_history ts llm (resolved_text llm outcome)
                       (queryHistory st) with
  | inr hist => Some (run [setQueryHistory (fun _ => hist)] st)
  | inl _ => None
  end.

(** Nothing more happens to a page that was unmounted. *)
Definition and_then (page : option State) (k : State -> option State)
  : option State :=
  match page with
  | Some st => k st
  | None => None
  end.

(* ------------------------------------------------------------------- *)
(** *** File upload *)

(** The uploaded file: its name and what [readFileContent(file)] settles
    to. *)
Record File := {
  name : jsstring;
  readFileContent : M jsstring
}.

Definition too_large : jsstring :=
  lit "File content is too large. Please upload a smaller file.".

(** [file] is [event.target.files?.[0]]. *)
Definition handleFileUpload (file : option File) : list call :=
  match file with
  | None => []
  | Some f =>
      [setFileName (name f); setError None]
      ++ match (content <- readFileContent f ;;
                if (50000 <? Z.of_nat (length content))%Z
                then throw (ErrorObject too_large)
                else ret content) with
         | inr content => [setFileContent content; setQuery content]
         | inl err =>
             [setFileName []; setFileContent [];
              setError
                (Some (message_or
                         (lit "Error reading file. Please try again.")
                         err))]
         end
  end.

End Page.

Import Page.

(* ===================================================================== *)
(** ** Sample data *)
(* ===================================================================== *)

Module Samples.

(** The wording V8 uses for a property read on [undefined] or [null]. *)
Definition v8_type_error (v : value) (k : key) : jsstring :=
  lit "Cannot read properties of "
  ++ match v with VNull => lit "null" | _ => lit "undefined" end
  ++ lit " (reading '" ++ key_name k ++ lit "')".

Definition all_keys : api_keys :=
  {| openai_key := Some (lit "sk-test");
     gemini_key := Some (lit "g-test");
     perplexity_key := Some (lit "pplx-test") |}.

Definition no_gemini_key : api_keys :=
  {| openai_key := Some (lit "sk-test");
     gemini_key := None;
     perplexity_key := Some (lit "pplx-test") |}.

(** A chat completion whose message carries no text, as the API sends
    for a refusal or a tool call:
    [{choices: [{message: {role: 'assistant', content: null}}]}]. *)
Definition null_content : value :=
  VObject [(lit "choices",
            VArray [VObject [(lit "message",
                              VObject [(lit "role",
                                        VString (lit "assistant"));
                                       (lit "content", VNull)])]])].

Definition null_content_response : response :=
  {| ok := true; status := 200;
     text := ret (lit "{choices:[{message:{role:assistant,content:null}}]}");
     json := ret null_content |}.

Definition answers_null_content (_ : request) : M response :=
  ret null_content_response.

Definition never_first (_ : request) : bool := false.

(** The same answer without the field:
    [{choices: [{message: {role: 'assistant'}}]}]. *)
Definition no_content : value :=
  VObject [(lit "choices",
            VArray [VObject [(lit "message",
                              VObject [(lit "role",
                                        VString (lit "assistant"))])]])].

Definition answers_no_content (_ : request) : M response :=
  ret {| ok := true; status := 200;
         text := ret (lit "{choices:[{message:{role:assistant}}]}");
         json := ret no_content |}.

Definition parent_record : QueryResponse :=
  {| query := lit "What is a monad?";
     timestamp := 1700000000000;
     parentId := None;
     responses := {| perplexity := lit "C"; chatgpt := lit "A";
                     gemini := lit "B" |} |}.

Definition pending_record : QueryResponse :=
  {| query := lit "And a functor?";
     timestamp := 1700000000500;
     parentId := Some 1700000000000%Z;
     responses := {| perplexity := lit "Loading...";
                     chatgpt := lit "Loading...";
                     gemini := lit "Loading..." |} |}.

(** A follow-up on [parent_record] being typed. *)
Definition follow_up_state : State :=
  {| textSize := 16; queryText := lit "Why is it useful?"; error := None;
     fileName := []; fileContent := [];
     selectedQuery := Some 1700000000000%Z;
     userType := None; queryType := None; isSearching := false;
     queryHistory := [pending_record; parent_record] |}.

Definition big_file : File :=
  {| name := lit "big.txt";
     readFileContent := ret (repeat 0x61%N (Z.to_nat 50001)) |}.

(** [```python\nx = 1\n# set y\n```] *)
Definition python_block : jsstring :=
  lit "```python" ++ [LF] ++ lit "x = 1" ++ [LF] ++ lit "# set y" ++ [LF]
  ++ lit "```".

(** ['# Title\n\nSome text'] *)
Definition titled : jsstring :=
  lit "# Title" ++ [LF; LF] ++ lit "Some text".



(** One blank typed into the text area of the fresh page. *)
Definition blank_query_state : State :=
  {| textSize := 16; queryText := [SP]; error := None;
     fileName := []; fileContent := []; selectedQuery := None;
     userType := None; queryType := None; isSearching := false;
     queryHistory := [parent_record] |}.



End Samples.

Import Samples.

(* ===================================================================== *)
(** ** What the page shows: paragraphs, pages, theme *)
(* ===================================================================== *)

Module View.

(** [s.split(sep)] for a separator of one or more code units: the
    occurrences are taken from left to right and do not overlap.  [skip]
    counts the units of the current occurrence still to be passed over;
    the head of the result is the piece being read. *)
Fixpoint split_from (sep : jsstring) (skip : nat) (s : jsstring)
  : list jsstring :=
  match s with
  | [] => [[]]
  | c :: s' =>
      match skip with
      | S k => split_from sep k s'
      | O =>
          match strip_prefix sep s with
          | Some _ => [] :: split_from sep (length sep - 1) s'
          | None =>
              match split_from sep 0 s' with
              | p :: ps => (c :: p) :: ps
              | [] => [[c]]
              end
          end
      end
  end.

(** [response.split('\n\n')], in [ResultTile] and in [ChatHistoryItem]. *)
Definition paragraphs (response : jsstring) : list jsstring :=
  split_from [LF; LF] 0 response.

(** The element a paragraph is rendered as. *)
Inductive style :=
| Heading1 | Heading2 | Heading3 | ListItem | NoteBox | Plain.

(** The chain of [paragraph.startsWith(...)] tests, the same in both
    components. *)
Definition paragraph_style (paragraph : jsstring) : style :=
  if starts_with glyph_large paragraph then Heading1
  else if starts_with glyph_medium paragraph then Heading2
  else if starts_with glyph_small paragraph then Heading3
  else if starts_with glyph_bullet paragraph
          || starts_with glyph_pin paragraph then ListItem
  else if starts_with glyph_note paragraph then NoteBox
  else Plain.

(** The body of a [ResultTile]. *)
Inductive tile_body :=
| Pulse
| Rendered (content : list (style * jsstring))
| Waiting.

(** [response] is [currentQueries[0]?.responses?.[llm.id]], [undefined]
    when the page is empty. *)
Definition ResultTile (response : option jsstring) (isLoading : bool)
  : tile_body :=
  if isLoading then Pulse
  else match response with
       | Some r =>
           if truthy r
           then Rendered (map (fun p => (paragraph_style p, p))
                              (paragraphs r))
           else Waiting
       | None => Waiting
       end.

(** [Array.prototype.slice(start, end)]: a negative index counts from the
    end, and both are clamped to the array. *)
Definition slice {A} (l : list A) (first last : Z) : list A :=
  let len := Z.of_nat (length l) in
  let k := if (first <? 0)%Z then Z.max (len + first) 0
           else Z.min first len in
  let final := if (last <? 0)%Z then Z.max (len + last) 0
               else Z.min last len in
  firstn (Z.to_nat (final - k)) (skipn (Z.to_nat k) l).

Definition ITEMS_PER_PAGE : Z := 5.

(** [Math.ceil(queryHistory.length / ITEMS_PER_PAGE)] *)
Definition totalPages (queryHistory : list QueryResponse) : Z :=
  (Z.of_nat (length queryHistory) + ITEMS_PER_PAGE - 1) / ITEMS_PER_PAGE.

Definition currentQueries (currentPage : Z)
           (queryHistory : list QueryResponse) : list QueryResponse :=
  slice queryHistory ((currentPage - 1) * ITEMS_PER_PAGE)
        (currentPage * ITEMS_PER_PAGE).

(** [useState(1)]: the setter [_setCurrentPage] is never called. *)
Definition currentPage : Z := 1.

(** The three tiles read the first record of the current page. *)
Definition tile_response (llm : LLM) (st : State) : option jsstring :=
  option_map (fun q => slot llm (responses q))
             (nth_error (currentQueries currentPage (queryHistory st)) 0).

(** The tile of [llm] as the page renders it:
    [isLoading = isSearching && !!query]. *)
Definition tile (llm : LLM) (st : State) : tile_body :=
  ResultTile (tile_response llm st)
             (isSearching st && truthy (queryText st)).

(** The initializer of [isDarkMode] and the mount effect, on what
    [localStorage.getItem('theme')] returned. *)
Definition theme_of_storage (saved : option jsstring) : bool :=
  match saved with
  | Some s => if truthy s then jsstring_eqb s (lit "dark") else true
  | None => true
  end.

(** What the effect on [isDarkMode] stores under ['theme']. *)
Definition storage_of_theme (isDarkMode : bool) : jsstring :=
  if isDarkMode then lit "dark" else lit "light".

(** The characters a pattern of [standardizeResponse] can start with,
    apart from line breaks. *)
Definition is_markup (c : char) : bool :=
  (c =? 0x23)%N || (c =? 0x2A)%N || (c =? 0x2D)%N || (c =? 0x3E)%N
  || (c =? 0x60)%N || (c =? 0x5F)%N || (c =? 0x5B)%N || is_digit c.

Definition markup_free (s : jsstring) : bool :=
  forallb (fun c => negb (is_markup c) && negb (c =? CR)%N) s.

End View.

Import View.

(* ===================================================================== *)
(** ** Uploaded files: [fileProcessors], [SUPPORTED_FILE_TYPES],
       [readFileContent] *)
(* ===================================================================== *)

Module Files.

(** The entries of [fileProcessors], and the inline processor of PDF
    files. *)
Inductive processor :=
| ProcText | ProcJson | ProcCsv | ProcHtml | ProcXml | ProcImage | ProcPdf.

(** [SUPPORTED_FILE_TYPES], in the order [Object.entries] lists it: the
    MIME type, the extensions, the processor. *)
Definition SUPPORTED_FILE_TYPES
  : list (jsstring * (list jsstring * processor)) :=
  [ (lit "text/plain", ([lit ".txt"], ProcText));
    (lit "text/markdown", ([lit ".md"; lit ".markdown"], ProcText));
    (lit "application/json", ([lit ".json"], ProcJson));
    (lit "text/csv", ([lit ".csv"], ProcCsv));
    (lit "text/html", ([lit ".html"; lit ".htm"], ProcHtml));
    (lit "application/xml", ([lit ".xml"], ProcXml));
    (lit "image/png", ([lit ".png"], ProcImage));
    (lit "image/jpeg", ([lit ".jpg"; lit ".jpeg"], ProcImage));
    (lit "application/pdf", ([lit ".pdf"], ProcPdf)) ].

(** A [File]: its name, its declared type, what [file.text()] settles to,
    and what the OCR worker and the PDF reader make of it. *)
Record file := {
  file_name : jsstring;
  file_type : jsstring;
  file_text : M jsstring;
  file_ocr : M jsstring;
  file_pdf : M jsstring
}.

(** [s.endsWith(suffix)] *)
Definition ends_with (suffix s : jsstring) : bool :=
  starts_with (rev suffix) (rev s).

(** [fileProcessors.csv]: cells trimmed and joined by a blank, line by
    line. *)
Definition csv_text (text : jsstring) : jsstring :=
  join [LF]
       (map (fun line => join [SP] (map trim (split_on 0x2C%N line)))
            (split_on LF text)).

Section Browser.

(** [String.prototype.toLowerCase]. *)
Variable toLowerCase : jsstring -> jsstring.

(** [JSON.stringify(JSON.parse(text), null, 2)], when [text] parses. *)
Variable pretty_json : jsstring -> option jsstring.

(** The text content of [text] read as an HTML fragment, and of its
    document element read as XML. *)
Variable html_content : jsstring -> jsstring.
Variable xml_content : jsstring -> M jsstring.

Definition process (p : processor) (f : file) : M jsstring :=
  match p with
  | ProcText => file_text f
  | ProcJson =>
      text <- file_text f ;;
      match pretty_json text with
      | Some pretty => ret pretty
      | None => throw (ErrorObject (lit "Invalid JSON file"))
      end
  | ProcCsv => text <- file_text f ;; ret (csv_text text)
  | ProcHtml => text <- file_text f ;; ret (html_content text)
  | ProcXml => text <- file_text f ;; xml_content text
  | ProcImage => file_ocr f
  | ProcPdf => file_pdf f
  end.

(** The entry [find] stops at: the first whose extensions hold one the
    lower-cased name ends with, or whose MIME type is the file's. *)
Definition fileType (f : file)
  : option (jsstring * (list jsstring * processor)) :=
  find (fun entry =>
          existsb (fun ext => ends_with ext (toLowerCase (file_name f)))
                  (fst (snd entry))
          || jsstring_eqb (file_type f) (fst entry))
       SUPPORTED_FILE_TYPES.

Definition readFileContent (f : file) : M jsstring :=
  try_catch
    match fileType f with
    | None => throw (ErrorObject (lit "Unsupported file type"))
    | Some entry => process (snd (snd entry)) f
    end
    (fun error =>
       throw (ErrorObject (lit "Error processing file: "
                             ++ message_or (lit "Unknown error") error))).

(** The file as [handleFileUpload] sees it. *)
Definition uploaded (f : file) : File :=
  {| name := file_name f; Page.readFileContent := readFileContent f |}.

End Browser.

End Files.

(* ===================================================================== *)
(** ** A session: the handlers as events, and what is persisted *)
(* ===================================================================== *)

Module Session.

(** What the user can do to the page. *)
Inductive event :=
| Submit (now : Z)
| Remove (ts : Z)
| FollowUp (q : jsstring) (ts : Z)
| Edit (text : jsstring)
| Zoom (z : zoom)
| Upload (f : option File).

(** The setter calls of the handler an event triggers, read off the state
    the page was last rendered with.  [Edit] is the [onChange] of the
    text area. *)
Definition handle (st : State) (ev : event) : list call :=
  match ev with
  | Submit now => handleSearch st now
  | Remove ts => handleDeleteQuery ts
  | FollowUp q ts => handleFollowUp q ts
  | Edit text => [setQuery text]
  | Zoom z => zoom_handler z
  | Upload f => handleFileUpload f
  end.

Definition step (st : State) (ev : event) : State := run (handle st ev) st.

(** What can happen to the page: the user does something, or the call of
    a provider settles and the continuation of [updateResponse] runs. *)
Inductive occurrence :=
| User (ev : event)
| Settle (ts : Z) (llm : LLM) (outcome : M value).

Definition occur (st : State) (o : occurrence) : option State :=
  match o with
  | User ev => Some (step st ev)
  | Settle ts llm outcome => updateResponse ts llm outcome st
  end.

(** The page after a sequence of occurrences, [None] once it was
    unmounted. *)
Fixpoint session (st : State) (os : list occurrence) : option State :=
  match os with
  | [] => Some st
  | o :: rest => and_then (occur st o) (fun st' => session st' rest)
  end.

(** The clock moves on: every submission is stamped later than every
    record the history holds at that moment. *)
Fixpoint clock_moves_on (st : State) (os : list occurrence) : Prop :=
  match os with
  | [] => True
  | o :: rest =>
      match o with
      | User (Submit now) =>
          Forall (fun q => (timestamp q < now)%Z) (queryHistory st)
      | _ => True
      end
      /\ match occur st o with
         | Some st' => clock_moves_on st' rest
         | None => True
         end
  end.

(** Which slot [handleSearch] wires each adapter to. *)
Definition llm_of (p : provider) : LLM :=
  match p with
  | OpenAI => Chatgpt
  | GeminiAPI => Gemini
  | PerplexityAPI => Perplexity
  end.

Section Wiring.

Variable type_error : value -> key -> jsstring.
Variable keys : api_keys.
Variable fetch : request -> M response.
Variable timer_first : request -> bool.

(** [updateResponse(llm, promise)] for the promise [handleSearch] got from
    the adapter of [p], called with the contextual prompt of the state
    [st] the query was submitted from at time [ts]. *)
Definition settle_provider (st : State) (ts : Z) (p : provider)
  : State -> option State :=
  updateResponse ts (llm_of p)
    (adapter type_error keys (userType st) (queryType st) fetch timer_first
             p (contextualPrompt st)).

End Wiring.

(** The document [storeQueryAndResponses] hands to [addDoc]. *)
Record document := {
  doc_userId : jsstring;
  doc_query : jsstring;
  doc_responses : Results;
  doc_userType : option jsstring;
  doc_queryType : option jsstring;
  doc_timestamp : Z
}.

(** [finalResponses], in the [then] of [Promise.all]. *)
Definition finalResponses (chatgpt_result perplexity_result gemini_result
                           : value) : M Results :=
  c <- standardize_value chatgpt_result ;;
  p <- standardize_value perplexity_result ;;
  g <- standardize_value gemini_result ;;
  ret {| perplexity := p; chatgpt := c; gemini := g |}.

(** What is handed to [addDoc] once the three adapters have returned, at
    time [stored_at]: nothing without a signed-in user, nothing when
    [finalResponses] throws. *)
Definition persisted (user : option jsstring) (st : State)
           (chatgpt_result perplexity_result gemini_result : value)
           (stored_at : Z) : option document :=
  match user with
  | None => None
  | Some uid =>
      match finalResponses chatgpt_result perplexity_result
                           gemini_result with
      | inr final =>
          Some {| doc_userId := uid;
                  doc_query := trim (queryText st);
                  doc_responses := final;
                  doc_userType := userType st;
                  doc_queryType := queryType st;
                  doc_timestamp := stored_at |}
      | inl _ => None
      end
  end.

(** The record [getUserHistory] makes of such a document: the document
    has no [parentId] field. *)
Definition history_record (d : document) : QueryResponse :=
  {| query := doc_query d;
     timestamp := doc_timestamp d;
     parentId := None;
     responses := doc_responses d |}.

End Session.

Import Session.

(* ===================================================================== *)
(** * Properties *)
(* ===================================================================== *)

(** ** Setter bookkeeping *)

Lemma run_app (a b : list call) (st : State) :
  run (a ++ b) st = run b (run a st).
Proof. unfold run. apply fold_left_app. Qed.

Lemma run_cons (c : call) (cs : list call) (st : State) :
  run (c :: cs) st = run cs (apply c st).
Proof. reflexivity. Qed.

Lemma state_eta (st : State) :
  {| textSize := textSize st; queryText := queryText st; error := error st;
     fileName := fileName st; fileContent := fileContent st;
     selectedQuery := selectedQuery st; userType := userType st;
     queryType := queryType st; isSearching := isSearching st;
     queryHistory := queryHistory st |} = st.
Proof. destruct st; reflexivity. Qed.

(** ** Text size *)

Lemma zoom_step_bounds (z : zoom) (st : State) :
  (12 <= textSize st <= 32)%Z ->
  (12 <= textSize (run (zoom_handler z) st) <= 32)%Z.
Proof.
  intros H. destruct z; cbn; lia.
Qed.

Lemma zoom_run_bounds (ops : list zoom) :
  forall st, (12 <= textSize st <= 32)%Z ->
             (12 <= textSize (run (flat_map zoom_handler ops) st) <= 32)%Z.
Proof.
  induction ops as [|z ops IH]; intros st H.
  - exact H.
  - cbn [flat_map]. rewrite run_app. apply IH. now apply zoom_step_bounds.
Qed.

(** C10.  Starting from the default text size 16, after any sequence of
    zoom-in and zoom-out clicks the text size lies between 12 and 32:
    zooming in adds 2 and stops at 32, zooming out takes 2 off and stops
    at 12. *)
Theorem text_size_stays_within_bounds :
  textSize initial_state = 16%Z
  /\ (forall st, textSize (run handleZoomIn st)
                 = Z.min (textSize st + 2) 32)
  /\ (forall st, textSize (run handleZoomOut st)
                 = Z.max (textSize st - 2) 12)
  /\ (forall ops : list zoom,
         (12 <= textSize (run (flat_map zoom_handler ops) initial_state)
          <= 32)%Z).
Proof.
  repeat split; try reflexivity;
    apply zoom_run_bounds; cbn; lia.
Qed.

(** ** History: slot updates, deletion, submission *)

Lemma update_slot_frame (ts : Z) (llm : LLM) (v : jsstring)
      (q : QueryResponse) :
  query (update_slot ts llm v q) = query q
  /\ timestamp (update_slot ts llm v q) = timestamp q
  /\ parentId (update_slot ts llm v q) = parentId q
  /\ (forall other, other <> llm ->
        slot other (responses (update_slot ts llm v q))
        = slot other (responses q))
  /\ (timestamp q = ts ->
        slot llm (responses (update_slot ts llm v q)) = v)
  /\ (timestamp q <> ts -> update_slot ts llm v q = q).
Proof.
  unfold update_slot.
  destruct (Z.eqb_spec (timestamp q) ts) as [E|E]; cbn.
  - repeat split; try congruence.
    + intros other H. destruct other, llm; cbn; congruence.
    + intros _. destruct llm; reflexivity.
  - repeat split; congruence.
Qed.

Lemma update_slot_absent (ts : Z) (llm : LLM) (v : jsstring)
      (hist : list QueryResponse) :
  ~ In ts (map timestamp hist) ->
  map (update_slot ts llm v) hist = hist.
Proof.
  induction hist as [|q hist IH]; intros H; cbn in *.
  - reflexivity.
  - rewrite IH by tauto. f_equal.
    apply update_slot_frame. intros E. apply H. now left.
Qed.

Lemma mark_loading_absent (ts : Z) (hist : list QueryResponse) :
  ~ In ts (map timestamp hist) ->
  map (mark_loading ts) hist = hist.
Proof.
  induction hist as [|q hist IH]; intros H; cbn in *.
  - reflexivity.
  - rewrite IH by tauto. f_equal. unfold mark_loading.
    destruct (Z.eqb_spec (timestamp q) ts); [exfalso; apply H; now left|].
    reflexivity.
Qed.

Lemma mark_loading_timestamp (ts : Z) (hist : list QueryResponse) :
  map timestamp (map (mark_loading ts) hist) = map timestamp hist.
Proof.
  rewrite map_map. apply map_ext. intros q. unfold mark_loading.
  now destruct (timestamp q =? ts)%Z.
Qed.

Lemma deleted_timestamp_gone (ts : Z) (hist : list QueryResponse) :
  ~ In ts (map timestamp
             (filter (fun item => negb (timestamp item =? ts)%Z) hist)).
Proof.
  intros H. apply in_map_iff in H. destruct H as (q & E & Hin).
  apply filter_In in Hin. destruct Hin as [_ Hq].
  rewrite <- E, Z.eqb_refl in Hq. discriminate.
Qed.

Lemma update_history_returns (ts : Z) (llm : LLM) (v : jsstring)
      (hist : list QueryResponse) :
  update_history ts llm (inr v) hist
  = inr (map (update_slot ts llm v) hist).
Proof.
  induction hist as [|q hist IH]; cbn [update_history map]; [reflexivity|].
  rewrite IH. unfold update_slot.
  now destruct (timestamp q =? ts)%Z.
Qed.

Lemma update_history_absent (ts : Z) (llm : LLM) (text : M jsstring)
      (hist : list QueryResponse) :
  ~ In ts (map timestamp hist) ->
  update_history ts llm text hist = inr hist.
Proof.
  induction hist as [|q hist IH]; intros H; cbn [update_history];
    [reflexivity|].
  cbn in H. rewrite IH by tauto.
  destruct (Z.eqb_spec (timestamp q) ts) as [E|E]; [|reflexivity].
  exfalso. apply H. now left.
Qed.

Lemma update_history_throws (ts : Z) (llm : LLM) (e : thrown)
      (hist : list QueryResponse) :
  In ts (map timestamp hist) ->
  update_history ts llm (inl e) hist = inl e.
Proof.
  induction hist as [|q hist IH]; intros H; cbn [update_history];
    [destruct H|].
  destruct (Z.eqb_spec (timestamp q) ts) as [E|E]; [reflexivity|].
  cbn in H. destruct H as [H|H]; [contradiction|].
  rewrite IH by exact H. reflexivity.
Qed.

Lemma update_history_frame (ts : Z) (llm : LLM) (text : M jsstring)
      (hist hist' : list QueryResponse) :
  update_history ts llm text hist = inr hist' ->
  Forall2
    (fun q q' =>
       query q' = query q
       /\ timestamp q' = timestamp q
       /\ parentId q' = parentId q
       /\ (forall other, other <> llm ->
             slot other (responses q') = slot other (responses q))
       /\ (timestamp q = ts -> text = inr (slot llm (responses q')))
       /\ (timestamp q <> ts -> q' = q))
    hist hist'.
Proof.
  revert hist'. induction hist as [|q hist IH]; intros hist' H.
  - cbn in H. injection H as <-. constructor.
  - destruct (in_dec Z.eq_dec ts (map timestamp (q :: hist))) as [Hin|Hout].
    + destruct text as [e|v].
      * rewrite update_history_throws in H by exact Hin. discriminate.
      * rewrite update_history_returns in H. injection H as <-.
        cbn [map]. constructor.
        -- destruct (update_slot_frame ts llm v q)
             as (H1 & H2 & H3 & H4 & H5 & H6).
           repeat split; try assumption.
           intros E. now rewrite H5.
        -- apply IH. apply update_history_returns.
    + rewrite update_history_absent in H by exact Hout.
      injection H as <-. constructor.
      * repeat split. intros E. exfalso. apply Hout. now left.
      * apply IH. apply update_history_absent.
        intros Hin. apply Hout. now right.
Qed.

Lemma updateResponse_returns (ts : Z) (llm : LLM) (outcome : M value)
      (v : jsstring) (st : State) :
  resolved_text llm outcome = inr v ->
  updateResponse ts llm outcome st
  = Some (run [setQueryHistory (map (update_slot ts llm v))] st).
Proof.
  intros H. unfold updateResponse.
  now rewrite H, update_history_returns.
Qed.

Lemma updateResponse_absent (ts : Z) (llm : LLM) (outcome : M value)
      (st : State) :
  ~ In ts (map timestamp (queryHistory st)) ->
  updateResponse ts llm outcome st = Some st.
Proof.
  intros H. unfold updateResponse.
  rewrite update_history_absent by exact H. cbn.
  now rewrite state_eta.
Qed.

Lemma updateResponse_throws (ts : Z) (llm : LLM) (outcome : M value)
      (e : thrown) (st : State) :
  resolved_text llm outcome = inl e ->
  In ts (map timestamp (queryHistory st)) ->
  updateResponse ts llm outcome st = None.
Proof.
  intros H Hin. unfold updateResponse.
  now rewrite H, update_history_throws.
Qed.




(** C7.  Deleting a query filters its timestamp out of the history at
    once, and an update that arrives for a timestamp the history does not
    hold changes nothing, whatever the call settled with: in particular a
    late update after the deletion does not bring the record back. *)
Theorem late_update_after_delete_is_noop :
  forall (ts : Z) (llm : LLM) (outcome : M value) (st : State),
    queryHistory (run (handleDeleteQuery ts) st)
    = filter (fun item => negb (timestamp item =? ts)%Z) (queryHistory st)
    /\ ~ In ts (map timestamp (queryHistory (run (handleDeleteQuery ts) st)))
    /\ (~ In ts (map timestamp (queryHistory st)) ->
        updateResponse ts llm outcome st = Some st)
    /\ updateResponse ts llm outcome (run (handleDeleteQuery ts) st)
       = Some (run (handleDeleteQuery ts) st).
Proof.
  intros ts llm outcome st. repeat split.
  - apply deleted_timestamp_gone.
  - apply updateResponse_absent.
  - apply updateResponse_absent. apply deleted_timestamp_gone.
Qed.

(** C9.  Submitting a query whose trimmed text is not empty puts, before
    any adapter has resolved, a new record with three ['Loading...'] slots
    at the head of the history; the records that were there follow in
    their order. *)
Theorem submit_prepends_loading_record :
  forall (st cur : State) (now : Z),
    truthy (trim (queryText st)) = true ->
    responses (newQuery st now)
    = {| perplexity := lit "Loading..."; chatgpt := lit "Loading...";
         gemini := lit "Loading..." |}
    /\ query (newQuery st now) = trim (queryText st)
    /\ timestamp (newQuery st now) = now
    /\ queryHistory (run (handleSearch_submit st now) cur)
       = newQuery st now :: queryHistory cur
    /\ queryHistory (run (handleSearch st now) cur)
       = newQuery st now :: map (mark_loading now) (queryHistory cur)
    /\ map timestamp (queryHistory (run (handleSearch st now) cur))
       = now :: map timestamp (queryHistory cur)
    /\ (~ In now (map timestamp (queryHistory cur)) ->
        queryHistory (run (handleSearch st now) cur)
        = newQuery st now :: queryHistory cur).
Proof.
  intros st cur now Hq.
  assert (E : queryHistory (run (handleSearch st now) cur)
              = newQuery st now :: map (mark_loading now) (queryHistory cur)).
  { unfold handleSearch. rewrite Hq. cbn.
    unfold mark_loading at 1. cbn. now rewrite Z.eqb_refl. }
  split; [reflexivity|]. split; [reflexivity|]. split; [reflexivity|].
  split; [reflexivity|]. split; [exact E|]. split.
  - rewrite E. cbn. now rewrite mark_loading_timestamp.
  - intros H. rewrite E. now rewrite mark_loading_absent.
Qed.

(** C9, as stated, fails: a query of one blank is not empty, yet
    [handleSearch] returns at its guard [!query.trim()]: no setter is
    called, the history keeps its one record and no record with
    ['Loading...'] slots is put in front of it. *)
Lemma white_space_query_creates_no_record :
  queryText blank_query_state <> []
  /\ (forall now : Z,
         handleSearch blank_query_state now = []
         /\ run (handleSearch blank_query_state now) blank_query_state
            = blank_query_state
         /\ queryHistory
              (run (handleSearch blank_query_state now) blank_query_state)
            = [parent_record]).
Proof.
  split; [discriminate|]. intros now. repeat split.
Qed.

(** C4.  A follow-up prompt holds the parent's question and its three
    answers, in this order, before the new question; each adapter sends
    that prompt after its instruction header. *)
Theorem follow_up_prompt_carries_parent :
  forall (st : State) (parent : QueryResponse),
    parentQuery st = Some parent ->
    In parent (queryHistory st)
    /\ selectedQuery st = Some (timestamp parent)
    /\ (exists a b c d e,
           contextualPrompt st
           = a ++ query parent
               ++ b ++ chatgpt (responses parent)
               ++ c ++ gemini (responses parent)
               ++ d ++ perplexity (responses parent)
               ++ e ++ queryText st)
    /\ (forall keys,
           exists h,
             req_content (openai_request keys (userType st) (queryType st)
                            (contextualPrompt st))
             = h ++ contextualPrompt st
             /\ req_content (gemini_request keys (userType st) (queryType st)
                               (contextualPrompt st))
                = h ++ contextualPrompt st
             /\ req_content (perplexity_request keys (userType st)
                               (queryType st) (contextualPrompt st))
                = h ++ contextualPrompt st).
Proof.
  intros st parent H.
  assert (Hsel : selectedQuery st = Some (timestamp parent)
                 /\ In parent (queryHistory st)).
  { unfold parentQuery in H. destruct (selectedQuery st) as [sel|]; [|discriminate].
    destruct (sel =? 0)%Z; [discriminate|].
    apply find_some in H. destruct H as [Hin E].
    apply Z.eqb_eq in E. subst sel. now split. }
  destruct Hsel as [Hsel Hin].
  repeat split; try assumption.
  - unfold contextualPrompt. rewrite H. unfold createPromptWithContext.
    exists (lit "User Type: " ++ or_default (userType st) (lit "Not specified")
            ++ [LF] ++ lit "Query Type: "
            ++ or_default (queryType st) (lit "Not specified")
            ++ [LF; LF] ++ lit "Previous question: "),
      ([LF] ++ lit "Previous answers:" ++ [LF] ++ lit "ChatGPT: "),
      ([LF] ++ lit "Gemini: "),
      ([LF] ++ lit "Perplexity: "),
      ([LF; LF] ++ lit "Follow-up question: ").
    now rewrite <- !app_assoc.
  - intros keys. eexists. cbn [req_content openai_request gemini_request
                                 perplexity_request].
    unfold formattedPrompt.
    repeat split; rewrite !app_assoc; reflexivity.
Qed.

(** C8.  A file whose extracted text is longer than 50 000 code units is
    refused: the handler never calls [setQuery], it resets the file name
    and file content, and it sets the error message. *)
Theorem oversized_upload_is_rejected :
  forall (f : File) (content : jsstring) (st : State),
    readFileContent f = inr content ->
    (50000 < Z.of_nat (length content))%Z ->
    handleFileUpload (Some f)
    = [setFileName (name f); setError None;
       setFileName []; setFileContent [];
       setError (Some (lit "File content is too large. Please upload a smaller file."))]
    /\ (forall s, ~ In (setQuery s) (handleFileUpload (Some f)))
    /\ queryText (run (handleFileUpload (Some f)) st) = queryText st
    /\ fileName (run (handleFileUpload (Some f)) st) = []
    /\ fileContent (run (handleFileUpload (Some f)) st) = []
    /\ error (run (handleFileUpload (Some f)) st)
       = Some (lit "File content is too large. Please upload a smaller file.").
Proof.
  intros f content st Hread Hlen.
  assert (E : handleFileUpload (Some f)
              = [setFileName (name f); setError None;
                 setFileName []; setFileContent [];
                 setError (Some too_large)]).
  { unfold handleFileUpload. rewrite Hread. cbn [bind].
    apply Z.ltb_lt in Hlen. rewrite Hlen. reflexivity. }
  rewrite E. repeat split.
  intros s H. cbn in H.
  repeat (destruct H as [H|H]; [discriminate|]). exact H.
Qed.


Lemma late_update_after_delete_is_noop_witness :
  ~ In 42%Z (map timestamp (queryHistory follow_up_state))
  /\ updateResponse 42 Chatgpt (ret (VString titled)) follow_up_state
     = Some follow_up_state.
Proof.
  assert (H : ~ In 42%Z (map timestamp (queryHistory follow_up_state))).
  { cbn. intros [E|[E|[]]]; discriminate E. }
  split; [exact H|].
  exact (proj1 (proj2 (proj2 (late_update_after_delete_is_noop
                                42 Chatgpt (ret (VString titled))
                                follow_up_state))) H).
Defined.

Lemma submit_prepends_loading_record_witness :
  truthy (trim (queryText follow_up_state)) = true
  /\ queryHistory (run (handleSearch follow_up_state 1700000001000)
                     follow_up_state)
     = newQuery follow_up_state 1700000001000
         :: queryHistory follow_up_state.
Proof.
  split; [reflexivity|].
  apply (submit_prepends_loading_record follow_up_state follow_up_state
           1700000001000 eq_refl).
  cbn. intros [E|[E|[]]]; discriminate E.
Defined.

Lemma follow_up_prompt_carries_parent_witness :
  parentQuery follow_up_state = Some parent_record
  /\ exists a b c d e,
      contextualPrompt follow_up_state
      = a ++ lit "What is a monad?" ++ b ++ lit "A" ++ c ++ lit "B"
          ++ d ++ lit "C" ++ e ++ lit "Why is it useful?".
Proof.
  split; [reflexivity|].
  exact (proj1 (proj2 (proj2 (follow_up_prompt_carries_parent
                                follow_up_state eq_refl)))).
Defined.

Lemma oversized_upload_is_rejected_witness :
  (50000 < Z.of_nat (length (repeat 0x61%N (Z.to_nat 50001))))%Z
  /\ queryText (run (handleFileUpload (Some big_file)) follow_up_state)
     = lit "Why is it useful?"
  /\ error (run (handleFileUpload (Some big_file)) follow_up_state)
     = Some (lit "File content is too large. Please upload a smaller file.").
Proof.
  assert (H : (50000 < Z.of_nat (length (repeat 0x61%N (Z.to_nat 50001))))%Z).
  { rewrite repeat_length. lia. }
  split; [exact H|].
  destruct (oversized_upload_is_rejected big_file follow_up_state eq_refl H)
    as (_ & _ & Hq & _ & _ & He).
  split; [exact Hq | exact He].
Defined.

(** ** Provider adapters *)

Section AdapterFacts.

Variable type_error : value -> key -> jsstring.
Variable keys : api_keys.
Variables ut qt : option jsstring.
Variable fetch : request -> M response.
Variable timer_first : request -> bool.

Local Abbreviation call := (adapter type_error keys ut qt fetch timer_first).
Local Abbreviation out := (settled keys ut qt fetch timer_first).

Lemma adapter_returns (p : provider) (prompt : jsstring) :
  exists v, call p prompt = inr v.
Proof.
  unfold adapter, callOpenAI, callGemini, callPerplexity, try_catch.
  destruct p;
    match goal with
    | |- context [match ?b with inl _ => _ | inr _ => _ end] =>
        destruct b; eauto
    end.
Qed.

Lemma adapter_missing_key (p : provider) (prompt : jsstring)
      (k : option jsstring) :
  guarded_key keys p = Some k -> missing k = true ->
  call p prompt
  = ret (VString (error_text (provider_name p)
                    (lit (provider_name p) ++ lit " API key not found"))).
Proof.
  destruct p; cbn; intros E Hk; inversion E; subst k.
  - unfold callGemini, callGemini_body. now rewrite Hk.
  - unfold callPerplexity, callPerplexity_body. now rewrite Hk.
Qed.

Lemma adapter_after_guard (p : provider) (prompt : jsstring) :
  key_present keys p ->
  call p prompt
  = try_catch
      (response <- out p prompt ;;
       if negb (ok response) then
         match p with
         | GeminiAPI =>
             throw (ErrorObject (lit "HTTP error! status: "
                                   ++ of_Z (status response)))
         | _ =>
             body <- text response ;;
             throw (ErrorObject (lit "HTTP error! status: "
                                   ++ of_Z (status response)
                                   ++ lit ", message: " ++ body))
         end
       else data <- json response ;; answer_of type_error p data)
      (as_error p).
Proof.
  unfold key_present. destruct p; cbn; intros Hk.
  - reflexivity.
  - unfold callGemini, callGemini_body.
    now rewrite (Hk _ eq_refl).
  - unfold callPerplexity, callPerplexity_body.
    now rewrite (Hk _ eq_refl).
Qed.

End AdapterFacts.

(** C2, as the code has it.  No adapter lets an exception out.  A missing
    key (for the two adapters that check it), a rejected or timed-out
    request, a status outside 2xx, a body that does not parse and a
    property read that throws on the way to the answer all come back as
    the text [Error (<provider>): <message>].  A body in which every
    property read succeeds is answered with whatever stands at the end of
    the path. *)
Theorem adapter_failures_become_error_text :
  forall (type_error : value -> key -> jsstring) (keys : api_keys)
         (ut qt : option jsstring) (fetch : request -> M response)
         (timer_first : request -> bool) (p : provider) (prompt : jsstring),
    (exists v, adapter type_error keys ut qt fetch timer_first p prompt
               = inr v)
    /\ (forall k, guarded_key keys p = Some k -> missing k = true ->
          adapter type_error keys ut qt fetch timer_first p prompt
          = ret (VString (lit "Error (" ++ lit (provider_name p) ++ lit "): "
                            ++ lit (provider_name p)
                            ++ lit " API key not found")))
    /\ (key_present keys p ->
        forall e, settled keys ut qt fetch timer_first p prompt = inl e ->
          adapter type_error keys ut qt fetch timer_first p prompt
          = ret (VString (lit "Error (" ++ lit (provider_name p) ++ lit "): "
                            ++ message_or (lit "Unknown error") e)))
    /\ (key_present keys p ->
        forall r, settled keys ut qt fetch timer_first p prompt = inr r ->
          ok r = false ->
          exists msg,
            adapter type_error keys ut qt fetch timer_first p prompt
            = ret (VString (lit "Error (" ++ lit (provider_name p)
                              ++ lit "): " ++ msg)))
    /\ (key_present keys p ->
        forall r e, settled keys ut qt fetch timer_first p prompt = inr r ->
          ok r = true -> json r = inl e ->
          adapter type_error keys ut qt fetch timer_first p prompt
          = ret (VString (lit "Error (" ++ lit (provider_name p) ++ lit "): "
                            ++ message_or (lit "Unknown error") e)))
    /\ (key_present keys p ->
        forall r data e,
          settled keys ut qt fetch timer_first p prompt = inr r ->
          ok r = true -> json r = inr data ->
          answer_of type_error p data = inl e ->
          adapter type_error keys ut qt fetch timer_first p prompt
          = ret (VString (lit "Error (" ++ lit (provider_name p) ++ lit "): "
                            ++ message_or (lit "Unknown error") e)))
    /\ (key_present keys p ->
        forall r data v,
          settled keys ut qt fetch timer_first p prompt = inr r ->
          ok r = true -> json r = inr data ->
          answer_of type_error p data = inr v ->
          adapter type_error keys ut qt fetch timer_first p prompt = inr v).
Proof.
  intros type_error keys ut qt fetch timer_first p prompt.
  split; [apply adapter_returns|].
  split; [intros k; apply adapter_missing_key|].
  repeat split; intros Hk;
    rewrite (@adapter_after_guard type_error keys ut qt fetch timer_first
               p prompt Hk).
  - intros e ->. reflexivity.
  - intros r -> Hok. cbn [bind]. rewrite Hok. cbn [negb].
    destruct p; [destruct (text r) as [e|body] | | destruct (text r) as [e|body]];
      cbn; eexists; reflexivity.
  - intros r e -> Hok Hj. cbn [bind]. rewrite Hok, Hj. reflexivity.
  - intros r data e -> Hok Hj Ha. cbn [bind]. rewrite Hok, Hj. cbn.
    rewrite Ha. reflexivity.
  - intros r data v -> Hok Hj Ha. cbn [bind]. rewrite Hok, Hj. cbn.
    rewrite Ha. reflexivity.
Qed.

Lemma adapter_failures_become_error_text_witness :
  guarded_key no_gemini_key GeminiAPI = Some None
  /\ missing None = true
  /\ adapter v8_type_error no_gemini_key None None answers_null_content
             never_first GeminiAPI (lit "Hello")
     = ret (VString (lit "Error (Gemini): Gemini API key not found")).
Proof.
  split; [reflexivity|]. split; [reflexivity|].
  exact (proj1 (proj2 (adapter_failures_become_error_text
                         v8_type_error no_gemini_key None None
                         answers_null_content never_first GeminiAPI
                         (lit "Hello")))
           None eq_refl eq_refl).
Defined.

(** C2, as stated, fails: a 200 response whose body has the whole path
    [choices[0].message.content] but [null] at its end is an unexpected
    shape, yet [callOpenAI] raises nothing and returns that [null], not an
    [Error (OpenAI): ...] text. *)
Lemma null_content_is_returned_as_is :
  settled all_keys None None answers_null_content never_first OpenAI
          (lit "Hello") = inr null_content_response
  /\ ok null_content_response = true
  /\ json null_content_response = inr null_content
  /\ (forall s, answer_of v8_type_error OpenAI null_content
                <> inr (VString s))
  /\ callOpenAI v8_type_error all_keys None None answers_null_content
                never_first (lit "Hello") = inr VNull
  /\ ~ (exists msg,
          callOpenAI v8_type_error all_keys None None answers_null_content
                     never_first (lit "Hello")
          = inr (VString (lit "Error (OpenAI): " ++ msg)))
  /\ callPerplexity v8_type_error all_keys None None answers_no_content
                    (lit "Hello") = inr VUndefined
  /\ resolved_text Chatgpt (inr VNull) = inr []
  /\ resolved_text Perplexity (inr VUndefined) = inr [].
Proof.
  repeat split; try reflexivity.
  - intros s H. vm_compute in H. discriminate H.
  - intros [msg H]. vm_compute in H. discriminate H.
Qed.


(** ** The normalizer, line by line *)

Lemma terminator_is_no_blank (t : char) :
  is_line_terminator t = true -> (t =? SP)%N = false.
Proof.
  unfold is_line_terminator, SP. intros H.
  destruct (N.eqb_spec t 32) as [->|]; [discriminate H|reflexivity].
Qed.

Lemma terminator_is_no_digit (t : char) :
  is_line_terminator t = true -> is_digit t = false.
Proof.
  unfold is_line_terminator, is_digit. intros H.
  repeat (apply orb_true_iff in H; destruct H as [H|H]);
    apply N.eqb_eq in H; subst t; reflexivity.
Qed.

Lemma split_lines_unlines (s : jsstring) : unlines (split_lines s) = s.
Proof.
  unfold unlines. induction s as [|c s IH]; cbn.
  - reflexivity.
  - destruct (split_lines s) as [ls last]. cbn in IH.
    destruct (is_line_terminator c); cbn.
    + now rewrite IH.
    + destruct ls as [|[l t] ls]; cbn in *; now rewrite IH.
Qed.

Lemma split_lines_well_formed (s : jsstring) : well_formed (split_lines s).
Proof.
  unfold well_formed. induction s as [|c s IH]; cbn.
  - split; [constructor|reflexivity].
  - destruct (split_lines s) as [ls last]. cbn in IH. destruct IH as [IH1 IH2].
    destruct (is_line_terminator c) eqn:E; cbn.
    + split; [|exact IH2]. constructor; [|exact IH1]. now split.
    + destruct ls as [|[l t] ls]; cbn.
      * split; [constructor|]. unfold terminator_free in *. cbn.
        unfold not_line_terminator at 1. now rewrite E.
      * inversion IH1 as [|? ? [Hl Ht] Hrest]; subst. split; [|exact IH2].
        constructor; [|exact Hrest]. split; [|exact Ht].
        unfold terminator_free in *. cbn.
        unfold not_line_terminator at 1. now rewrite E.
Qed.

Lemma line_then_rest (l after : jsstring) :
  terminator_free l = true -> at_line_end after = true ->
  take_while not_line_terminator (l ++ after) = l
  /\ drop_while not_line_terminator (l ++ after) = after.
Proof.
  unfold terminator_free. induction l as [|c l IH]; cbn; intros Hl Ha.
  - destruct after as [|t x]; cbn in *; [now split|].
    unfold not_line_terminator. rewrite Ha. now split.
  - apply andb_true_iff in Hl. destruct Hl as [Hc Hl]. rewrite Hc.
    destruct (IH Hl Ha) as [-> ->]. now split.
Qed.

Lemma strip_prefix_in_line (marker l after : jsstring) :
  terminator_free marker = true -> at_line_end after = true ->
  strip_prefix marker (l ++ after)
  = option_map (fun r => r ++ after) (strip_prefix marker l).
Proof.
  unfold terminator_free. revert l.
  induction marker as [|a marker IH]; intros l Hm Ha; cbn.
  - reflexivity.
  - cbn in Hm. apply andb_true_iff in Hm. destruct Hm as [Hna Hm].
    destruct l as [|c l]; cbn.
    + destruct after as [|t x]; [reflexivity|]. cbn in Ha.
      destruct (N.eqb_spec a t) as [->|]; [|reflexivity].
      unfold not_line_terminator in Hna. rewrite Ha in Hna. discriminate.
    + destruct (a =? c)%N; [now apply IH|reflexivity].
Qed.

Lemma strip_prefix_terminator_free (marker l r : jsstring) :
  strip_prefix marker l = Some r ->
  terminator_free l = true -> terminator_free r = true.
Proof.
  unfold terminator_free. revert l.
  induction marker as [|a marker IH]; intros l H Hl; cbn in H.
  - now inversion H; subst.
  - destruct l as [|c l]; [discriminate|].
    destruct (a =? c)%N; [|discriminate].
    cbn in Hl. apply andb_true_iff in Hl. now apply (IH l).
Qed.

Lemma skip_space_in_line (r after : jsstring) :
  at_line_end after = true -> skip_space (r ++ after) = skip_space r ++ after.
Proof.
  intros Ha. destruct r as [|c r]; cbn [app skip_space].
  - destruct after as [|t x]; [reflexivity|]. cbn in Ha.
    unfold skip_space. now rewrite (terminator_is_no_blank _ Ha).
  - now destruct (c =? SP)%N.
Qed.

Lemma skip_space_terminator_free (r : jsstring) :
  terminator_free r = true -> terminator_free (skip_space r) = true.
Proof.
  unfold terminator_free. destruct r as [|c r]; cbn [skip_space]; [easy|].
  intros H. destruct (c =? SP)%N; [|exact H].
  cbn in H. apply andb_true_iff in H. now destruct H.
Qed.

Lemma terminator_free_app (a b : jsstring) :
  terminator_free a = true -> terminator_free b = true ->
  terminator_free (a ++ b) = true.
Proof.
  unfold terminator_free. intros Ha Hb. rewrite forallb_app.
  now rewrite Ha, Hb.
Qed.

Lemma digits_in_line (l after : jsstring) :
  at_line_end after = true ->
  take_while is_digit (l ++ after) = take_while is_digit l
  /\ drop_while is_digit (l ++ after) = drop_while is_digit l ++ after.
Proof.
  intros Ha. induction l as [|c l [IH1 IH2]]; cbn [app take_while drop_while].
  - destruct after as [|t x]; [now split|]. cbn in Ha.
    cbn [take_while drop_while].
    now rewrite (terminator_is_no_digit _ Ha).
  - destruct (is_digit c); [|now split]. now rewrite IH1, IH2.
Qed.

Lemma take_while_terminator_free (p : char -> bool) (l : jsstring) :
  terminator_free l = true -> terminator_free (take_while p l) = true.
Proof.
  unfold terminator_free. induction l as [|c l IH]; cbn; [easy|].
  intros H. apply andb_true_iff in H. destruct H as [Hc Hl].
  destruct (p c); cbn; [|reflexivity]. now rewrite Hc, IH.
Qed.

Lemma drop_while_terminator_free (p : char -> bool) (l : jsstring) :
  terminator_free l = true -> terminator_free (drop_while p l) = true.
Proof.
  unfold terminator_free. induction l as [|c l IH]; cbn; [easy|].
  intros H. destruct (p c); [|exact H].
  apply andb_true_iff in H. now apply IH.
Qed.

(** *** A pattern that rewrites whole lines *)

Section LineMatcher.

Variable m : matcher.
Variable r : rule.

(** The pattern is anchored at the start of a line, ... *)
Hypothesis anchored : forall s, m false s = None.

(** ... there it matches the line up to its end, as [r] says, ... *)
Hypothesis whole_line :
  forall l after,
    terminator_free l = true -> at_line_end after = true ->
    m true (l ++ after) = option_map (fun x => (x, after)) (r l).

(** ... it never matches the empty line, ... *)
Hypothesis not_empty : r [] = None.

(** ... and it brings no line terminator in. *)
Hypothesis keeps_line :
  forall l x, r l = Some x -> terminator_free l = true ->
              terminator_free x = true.

Lemma no_match_at_line_end (b : bool) (after : jsstring) :
  at_line_end after = true -> m b after = None.
Proof.
  intros Ha. destruct b; [|apply anchored].
  pose proof (whole_line [] after eq_refl Ha) as W.
  cbn [app] in W. now rewrite W, not_empty.
Qed.

Lemma replace_at_line_end (b : bool) (after : jsstring) :
  at_line_end after = true ->
  replace_from m 0 b after = replace_from m 0 true after.
Proof.
  destruct after as [|t x]; [reflexivity|]. intros Ha.
  cbn [replace_from]. now rewrite !no_match_at_line_end.
Qed.

Lemma replace_terminator (t : char) (rest : jsstring) :
  is_line_terminator t = true ->
  replace_from m 0 true (t :: rest) = t :: replace_from m 0 true rest.
Proof.
  intros Ht. cbn [replace_from].
  rewrite no_match_at_line_end by exact Ht. now rewrite Ht.
Qed.

Lemma replace_inside_line (l after : jsstring) :
  terminator_free l = true -> at_line_end after = true ->
  replace_from m 0 false (l ++ after) = l ++ replace_from m 0 true after.
Proof.
  unfold terminator_free. induction l as [|c l IH]; intros Hl Ha.
  - now apply replace_at_line_end.
  - cbn in Hl. apply andb_true_iff in Hl. destruct Hl as [Hc Hl].
    cbn [app replace_from]. rewrite anchored.
    unfold not_line_terminator in Hc. apply negb_true_iff in Hc.
    rewrite Hc. now rewrite IH.
Qed.

Lemma replace_skip_line (l after : jsstring) (b : bool) :
  at_line_end after = true ->
  replace_from m (length l) b (l ++ after) = replace_from m 0 true after.
Proof.
  intros Ha. revert b. induction l as [|c l IH]; intros b.
  - now apply replace_at_line_end.
  - cbn [length app replace_from]. apply IH.
Qed.

Lemma replace_line (l after : jsstring) :
  terminator_free l = true -> at_line_end after = true ->
  replace_from m 0 true (l ++ after)
  = apply_rule r l ++ replace_from m 0 true after.
Proof.
  intros Hl Ha. destruct l as [|c l].
  - unfold apply_rule. now rewrite not_empty.
  - cbn [app replace_from].
    change (c :: l ++ after) with ((c :: l) ++ after).
    rewrite (whole_line (c :: l) after Hl Ha). unfold apply_rule.
    unfold terminator_free in Hl. cbn in Hl.
    apply andb_true_iff in Hl. destruct Hl as [Hc Hl].
    destruct (r (c :: l)) as [x|]; cbn [option_map].
    + f_equal. rewrite length_app.
      replace (length l + length after - length after)%nat
        with (length l) by lia.
      now apply replace_skip_line.
    + unfold not_line_terminator in Hc. apply negb_true_iff in Hc.
      rewrite Hc. cbn [app]. f_equal. now apply replace_inside_line.
Qed.

Lemma apply_rule_keeps_line (l : jsstring) :
  terminator_free l = true -> terminator_free (apply_rule r l) = true.
Proof.
  intros Hl. unfold apply_rule. destruct (r l) as [x|] eqn:E.
  - exact (keeps_line E Hl).
  - exact Hl.
Qed.

Lemma replace_lines_from (ls : list (jsstring * char)) (last : jsstring) :
  well_formed (ls, last) ->
  replace_from m 0 true (unlines_from ls last)
  = unlines_from (map (fun lt => (apply_rule r (fst lt), snd lt)) ls)
                 (apply_rule r last).
Proof.
  unfold well_formed. cbn [fst snd]. intros [Hls Hlast].
  induction Hls as [|[l t] ls [Hl Ht] Hrest IH]; cbn [unlines_from map fst snd].
  - rewrite <- (app_nil_r last) at 1.
    rewrite (replace_line last [] Hlast eq_refl). cbn. apply app_nil_r.
  - cbn [fst snd] in Hl, Ht.
    rewrite (replace_line l (t :: unlines_from ls last) Hl Ht).
    rewrite replace_terminator by exact Ht. now rewrite IH.
Qed.

(** On any text the replacement is the rule applied to each line. *)
Lemma replace_all_lines (x : lines) :
  well_formed x ->
  replace_all m (unlines x) = unlines (map_lines (apply_rule r) x)
  /\ well_formed (map_lines (apply_rule r) x).
Proof.
  intros H. split.
  - destruct x as [ls last]. now apply replace_lines_from.
  - destruct H as [Hls Hlast]. split; cbn [map_lines fst snd].
    + induction Hls as [|[l t] ls [Hl Ht] Hrest IH]; cbn; constructor.
      * split; [now apply apply_rule_keeps_line|exact Ht].
      * exact IH.
    + now apply apply_rule_keeps_line.
Qed.

End LineMatcher.

(** *** The marker and numbered-list patterns are such patterns *)

Lemma line_marker_whole_line (marker glyph l after : jsstring) :
  terminator_free marker = true ->
  terminator_free l = true -> at_line_end after = true ->
  re_line_marker marker glyph true (l ++ after)
  = option_map (fun x => (x, after)) (marker_rule marker glyph l).
Proof.
  intros Hm Hl Ha. unfold re_line_marker, marker_rule.
  rewrite strip_prefix_in_line by assumption.
  destruct (strip_prefix marker l) as [rest|] eqn:E; cbn [option_map];
    [|reflexivity].
  rewrite skip_space_in_line by assumption.
  assert (Hrest : terminator_free (skip_space rest) = true).
  { apply skip_space_terminator_free.
    exact (strip_prefix_terminator_free _ _ E Hl). }
  destruct (line_then_rest _ _ Hrest Ha) as [-> ->]. reflexivity.
Qed.

Lemma marker_rule_not_empty (marker glyph : jsstring) :
  marker <> [] -> marker_rule marker glyph [] = None.
Proof. destruct marker; [congruence|reflexivity]. Qed.

Lemma marker_rule_keeps_line (marker glyph l x : jsstring) :
  terminator_free glyph = true ->
  marker_rule marker glyph l = Some x ->
  terminator_free l = true -> terminator_free x = true.
Proof.
  intros Hg H Hl. unfold marker_rule in H.
  destruct (strip_prefix marker l) as [rest|] eqn:E; [|discriminate].
  injection H as <-.
  apply terminator_free_app; [exact Hg|].
  apply (@terminator_free_app [SP] (skip_space rest) eq_refl).
  apply skip_space_terminator_free.
  exact (strip_prefix_terminator_free _ _ E Hl).
Qed.

Lemma replace_marker_lines (marker glyph : jsstring) (x : lines) :
  terminator_free marker = true -> marker <> [] ->
  terminator_free glyph = true ->
  well_formed x ->
  replace_all (re_line_marker marker glyph) (unlines x)
  = unlines (map_lines (apply_rule (marker_rule marker glyph)) x)
  /\ well_formed (map_lines (apply_rule (marker_rule marker glyph)) x).
Proof.
  intros Hm Hne Hg. apply replace_all_lines.
  - reflexivity.
  - intros l after. now apply line_marker_whole_line.
  - now apply marker_rule_not_empty.
  - intros l y. now apply marker_rule_keeps_line.
Qed.

Lemma numbered_whole_line (glyph l after : jsstring) :
  terminator_free l = true -> at_line_end after = true ->
  re_numbered glyph true (l ++ after)
  = option_map (fun x => (x, after)) (numbered_rule glyph l).
Proof.
  intros Hl Ha. unfold re_numbered, numbered_rule.
  destruct (digits_in_line l after Ha) as [-> ->].
  destruct (take_while is_digit l) as [|d digits]; [reflexivity|].
  pose proof (drop_while_terminator_free is_digit l Hl) as Hd.
  destruct (drop_while is_digit l) as [|c rest]; cbn [app].
  - destruct after as [|t tail]; [reflexivity|]. cbn in Ha.
    destruct (N.eqb_spec t 0x2E) as [->|]; [discriminate Ha|reflexivity].
  - destruct (c =? 0x2E)%N; [|reflexivity]. cbn [option_map].
    rewrite skip_space_in_line by assumption.
    assert (Hrest : terminator_free (skip_space rest) = true).
    { apply skip_space_terminator_free. unfold terminator_free in *.
      cbn in Hd. apply andb_true_iff in Hd. now destruct Hd. }
    destruct (line_then_rest _ _ Hrest Ha) as [-> ->]. reflexivity.
Qed.

Lemma numbered_rule_keeps_line (glyph l x : jsstring) :
  terminator_free glyph = true ->
  numbered_rule glyph l = Some x ->
  terminator_free l = true -> terminator_free x = true.
Proof.
  intros Hg H Hl. unfold numbered_rule in H.
  pose proof (take_while_terminator_free is_digit l Hl) as Ht.
  pose proof (drop_while_terminator_free is_digit l Hl) as Hd.
  destruct (take_while is_digit l) as [|d digits]; [discriminate|].
  destruct (drop_while is_digit l) as [|c rest]; [discriminate|].
  destruct (c =? 0x2E)%N; [|discriminate]. injection H as <-.
  apply terminator_free_app; [exact Hg|].
  apply (@terminator_free_app [SP] _ eq_refl).
  apply (@terminator_free_app (d :: digits) _ Ht).
  apply (@terminator_free_app (lit ". ") (skip_space rest) eq_refl).
  apply skip_space_terminator_free. unfold terminator_free in *.
  cbn in Hd. apply andb_true_iff in Hd. now destruct Hd.
Qed.

Lemma replace_numbered_lines (glyph : jsstring) (x : lines) :
  terminator_free glyph = true ->
  well_formed x ->
  replace_all (re_numbered glyph) (unlines x)
  = unlines (map_lines (apply_rule (numbered_rule glyph)) x)
  /\ well_formed (map_lines (apply_rule (numbered_rule glyph)) x).
Proof.
  intros Hg. apply replace_all_lines.
  - reflexivity.
  - intros l after. now apply numbered_whole_line.
  - reflexivity.
  - intros l y. now apply numbered_rule_keeps_line.
Qed.

Lemma map_lines_compose (f g : jsstring -> jsstring) (x : lines) :
  map_lines f (map_lines g x) = map_lines (fun l => f (g l)) x.
Proof.
  unfold map_lines. cbn [fst snd]. now rewrite map_map.
Qed.

Lemma format_headers_lines (x : lines) :
  well_formed x ->
  format_headers (unlines x) = unlines (map_lines header_line x)
  /\ well_formed (map_lines header_line x).
Proof.
  intros H0. unfold format_headers.
  destruct (@replace_marker_lines (lit "###") glyph_small x) as [E1 H1];
    try easy.
  destruct (@replace_marker_lines (lit "##") glyph_medium _
              eq_refl ltac:(easy) eq_refl H1) as [E2 H2].
  destruct (@replace_marker_lines (lit "#") glyph_large _
              eq_refl ltac:(easy) eq_refl H2) as [E3 H3].
  rewrite E1, E2, E3. rewrite !map_lines_compose in *. now split.
Qed.

Lemma format_lists_lines (x : lines) :
  well_formed x ->
  format_lists (unlines x) = unlines (map_lines list_line x)
  /\ well_formed (map_lines list_line x).
Proof.
  intros H0. unfold format_lists.
  destruct (@replace_marker_lines (lit "*") glyph_bullet x) as [E1 H1];
    try easy.
  destruct (@replace_marker_lines (lit "-") glyph_bullet _
              eq_refl ltac:(easy) eq_refl H1) as [E2 H2].
  destruct (@replace_numbered_lines glyph_pin _ eq_refl H2) as [E3 H3].
  rewrite E1, E2, E3. rewrite !map_lines_compose in *. now split.
Qed.

Lemma format_quotes_lines (x : lines) :
  well_formed x ->
  format_quotes (unlines x) = unlines (map_lines quote_line x)
  /\ well_formed (map_lines quote_line x).
Proof.
  intros H0. unfold format_quotes.
  now apply replace_marker_lines.
Qed.

Lemma glyph_steps_lines (x : lines) :
  well_formed x ->
  glyph_steps (unlines x) = unlines (map_lines glyph_line x)
  /\ well_formed (map_lines glyph_line x).
Proof.
  intros H0. unfold glyph_steps.
  destruct (format_headers_lines H0) as [E1 H1].
  destruct (format_lists_lines H1) as [E2 H2].
  destruct (format_quotes_lines H2) as [E3 H3].
  rewrite E1, E2, E3. rewrite !map_lines_compose in *. now split.
Qed.

(** *** Headings *)

(** C3.  The heading substitutions rewrite every line of every text on its
    own; a line that begins with [### ] gets the small-heading glyph and
    neither of the other two, [## ] gets the medium one and [# ] the large
    one, the three glyphs differ, and ['# Title\n\nSome text'] is
    normalized to the large glyph followed by [' Title\n\nSome text']. *)
Theorem headings_longest_prefix_first :
  (forall s, format_headers s
             = unlines (map_lines header_line (split_lines s)))
  /\ (forall rest, header_line (lit "### " ++ rest)
                   = glyph_small ++ [SP] ++ rest)
  /\ (forall rest,
         starts_with glyph_medium (header_line (lit "### " ++ rest)) = false
         /\ starts_with glyph_large (header_line (lit "### " ++ rest))
            = false)
  /\ (forall rest, header_line (lit "## " ++ rest)
                   = glyph_medium ++ [SP] ++ rest)
  /\ (forall rest, header_line (lit "# " ++ rest)
                   = glyph_large ++ [SP] ++ rest)
  /\ glyph_small <> glyph_medium
  /\ glyph_small <> glyph_large
  /\ glyph_medium <> glyph_large
  /\ standardizeResponse (lit "# Title" ++ [LF; LF] ++ lit "Some text")
     = glyph_large ++ lit " Title" ++ [LF; LF] ++ lit "Some text"
  /\ standardizeResponse (lit "### C" ++ [LF] ++ lit "## B" ++ [LF]
                            ++ lit "# A")
     = glyph_small ++ lit " C" ++ [LF; LF] ++ glyph_medium ++ lit " B"
         ++ [LF; LF] ++ glyph_large ++ lit " A".
Proof.
  split.
  { intros s. rewrite <- (split_lines_unlines s) at 1.
    apply format_headers_lines, split_lines_well_formed. }
  repeat split; try reflexivity; discriminate.
Qed.

(** *** Glyph lines are left alone *)











(** *** Fenced code blocks *)

(** C6.  The fence pattern does put the inner text of the block between
    the two brackets, but the text stays in the string the later
    substitutions work on: in [```python\nx = 1\n# set y\n```] the comment
    line comes out as a large heading. *)
Theorem fenced_comment_becomes_heading :
  code_blocks (cleanup python_block)
  = bracket_open ++ lit "x = 1" ++ [LF] ++ lit "# set y" ++ [LF]
      ++ bracket_close
  /\ standardizeResponse python_block
     = bracket_open ++ lit "x = 1" ++ [LF; LF]
         ++ glyph_large ++ lit " set y" ++ [LF; LF] ++ bracket_close
  /\ find_sub (lit "# set y") (standardizeResponse python_block) = None.
Proof.
  repeat split; vm_compute; reflexivity.
Qed.

(** ** Further facts about the same code *)

(** A query that is blank after trimming is not submitted at all. *)
Lemma blank_query_is_ignored (st : State) (now : Z) :
  trim (queryText st) = [] -> handleSearch st now = [].
Proof.
  intros H. unfold handleSearch. now rewrite H.
Qed.

Lemma replace_past_the_end (m : matcher) (l : jsstring) :
  forall k b, (length l <= k)%nat -> replace_from m k b l = [].
Proof.
  induction l as [|c l IH]; intros k b H; [reflexivity|].
  cbn [length] in H. destruct k as [|k]; [lia|].
  cbn [replace_from]. apply IH. lia.
Qed.

Lemma drop_lower_tag (tag rest : jsstring) :
  forallb is_lower tag = true ->
  drop_while is_lower (tag ++ LF :: rest) = LF :: rest.
Proof.
  induction tag as [|c tag IH]; cbn [forallb app drop_while]; intros H.
  - reflexivity.
  - apply andb_true_iff in H. destruct H as [-> H]. now apply IH.
Qed.

Lemma replace_whole_text (m : matcher) (c : char) (s repl : jsstring) :
  m true (c :: s) = Some (repl, []) -> replace_all m (c :: s) = repl.
Proof.
  intros H. unfold replace_all. cbn [replace_from]. rewrite H.
  rewrite replace_past_the_end by (cbn [length]; lia). apply app_nil_r.
Qed.

(** A text that is one fenced block, with a tag of lower-case letters and
    no fence inside, becomes the inner text between the two brackets. *)
Lemma code_fence_wraps_inner (tag inner : jsstring) :
  forallb is_lower tag = true ->
  find_sub (lit "```") (inner ++ lit "```") = Some (inner, []) ->
  code_blocks (lit "```" ++ tag ++ [LF] ++ inner ++ lit "```")
  = bracket_open ++ inner ++ bracket_close.
Proof.
  intros Htag Hinner. unfold code_blocks.
  change (lit "```" ++ tag ++ [LF] ++ inner ++ lit "```")
    with (0x60%N :: 0x60%N :: 0x60%N
            :: (tag ++ LF :: inner ++ lit "```")).
  apply replace_whole_text. unfold re_code_fence.
  change (strip_prefix (lit "```")
            (0x60%N :: 0x60%N :: 0x60%N :: tag ++ LF :: inner ++ lit "```"))
    with (Some (tag ++ LF :: inner ++ lit "```")).
  cbv beta iota.
  rewrite (drop_lower_tag _ _ Htag), N.eqb_refl, Hinner. reflexivity.
Qed.

(* ===================================================================== *)
(** * Further properties of the page *)
(* ===================================================================== *)

(** ** Trimming and splitting *)

Lemma drop_while_head (p : char -> bool) (s : jsstring) :
  match drop_while p s with [] => True | c :: _ => p c = false end.
Proof.
  induction s as [|c s IH]; cbn; [exact I|].
  destruct (p c) eqn:E; [exact IH|exact E].
Qed.

Lemma drop_while_fixed (p : char -> bool) (s : jsstring) :
  match s with [] => True | c :: _ => p c = false end ->
  drop_while p s = s.
Proof.
  destruct s as [|c s]; cbn; [reflexivity|]. now intros ->.
Qed.

Lemma drop_while_suffix (p : char -> bool) (s : jsstring) :
  exists pre, s = pre ++ drop_while p s.
Proof.
  induction s as [|c s [pre IH]]; cbn.
  - now exists [].
  - destruct (p c).
    + exists (c :: pre). cbn. now rewrite <- IH.
    + now exists [].
Qed.

Lemma in_drop_while (p : char -> bool) (c : char) (s : jsstring) :
  In c (drop_while p s) -> In c s.
Proof.
  destruct (drop_while_suffix p s) as [pre E]. intros H.
  rewrite E. apply in_or_app. now right.
Qed.

Lemma in_trim (c : char) (s : jsstring) : In c (trim s) -> In c s.
Proof.
  unfold trim. intros H. apply in_rev in H. apply in_drop_while in H.
  apply in_rev in H. now apply in_drop_while in H.
Qed.

Lemma trim_idempotent (s : jsstring) : trim (trim s) = trim s.
Proof.
  unfold trim.
  set (a := drop_while is_white_space s).
  set (b := drop_while is_white_space (rev a)).
  assert (Ha : match a with [] => True | c :: _ => is_white_space c = false end)
    by apply drop_while_head.
  assert (Hb : match b with [] => True | c :: _ => is_white_space c = false end)
    by apply drop_while_head.
  assert (Hrb : match rev b with
                | [] => True
                | c :: _ => is_white_space c = false
                end).
  { destruct (drop_while_suffix is_white_space (rev a)) as [pre E].
    fold b in E. apply (f_equal (@rev char)) in E.
    rewrite rev_involutive, rev_app_distr in E.
    destruct (rev b) as [|c rb]; [exact I|]. rewrite E in Ha. exact Ha. }
  rewrite (drop_while_fixed _ _ Hrb), rev_involutive.
  now rewrite (drop_while_fixed _ _ Hb).
Qed.

Lemma split_on_pieces (sep : char) (s : jsstring) :
  split_on sep s <> []
  /\ Forall (fun p => ~ In sep p) (split_on sep s).
Proof.
  induction s as [|c s [IH1 IH2]]; cbn.
  - split; [discriminate|]. constructor; [easy|constructor].
  - destruct (N.eqb_spec c sep) as [->|Hc].
    + split; [discriminate|]. constructor; [easy|exact IH2].
    + destruct (split_on sep s) as [|p ps]; [contradiction|].
      split; [discriminate|]. inversion IH2; subst.
      constructor; [|assumption]. intros [E|Hin]; [congruence|contradiction].
Qed.

Lemma split_on_join (sep : char) (ls : list jsstring) :
  ls <> [] -> Forall (fun p => ~ In sep p) ls ->
  split_on sep (join [sep] ls) = ls.
Proof.
  intros Hne H. revert Hne.
  induction H as [|p rest Hp Hrest IH]; intros Hne; [contradiction|].
  clear Hne. destruct rest as [|q tl].
  - cbn [join]. clear IH Hrest. induction p as [|c p IHp]; [reflexivity|].
    cbn [split_on]. destruct (N.eqb_spec c sep) as [->|Hc].
    + exfalso. apply Hp. now left.
    + rewrite IHp; [reflexivity|]. intros Hin. apply Hp. now right.
  - specialize (IH ltac:(discriminate)).
    change (join [sep] (p :: q :: tl)) with (p ++ [sep] ++ join [sep] (q :: tl)).
    induction p as [|c p IHp].
    + cbn [app split_on]. now rewrite N.eqb_refl, IH.
    + cbn [app split_on]. destruct (N.eqb_spec c sep) as [->|Hc].
      * exfalso. apply Hp. now left.
      * cbn [app] in IHp. rewrite IHp; [reflexivity|].
        intros Hin. apply Hp. now right.
Qed.

Lemma paragraphs_of_piece (p : jsstring) :
  ~ In LF p -> paragraphs p = [p].
Proof.
  unfold paragraphs. induction p as [|c p IH]; intros Hp; [reflexivity|].
  cbn [split_from strip_prefix].
  destruct (N.eqb_spec LF c) as [<-|Hc]; [exfalso; apply Hp; now left|].
  rewrite IH; [reflexivity|]. intros Hin. apply Hp. now right.
Qed.

Lemma paragraphs_of_piece_then (p rest : jsstring) :
  ~ In LF p ->
  paragraphs (p ++ [LF; LF] ++ rest) = p :: paragraphs rest.
Proof.
  unfold paragraphs. induction p as [|c p IH]; intros Hp.
  - cbn [app split_from strip_prefix length Nat.sub].
    now rewrite !N.eqb_refl.
  - cbn [app split_from strip_prefix].
    destruct (N.eqb_spec LF c) as [<-|Hc]; [exfalso; apply Hp; now left|].
    cbn [app] in IH. rewrite IH; [reflexivity|].
    intros Hin. apply Hp. now right.
Qed.

Lemma paragraphs_join (ls : list jsstring) :
  ls <> [] -> Forall (fun p => ~ In LF p) ls ->
  paragraphs (join [LF; LF] ls) = ls.
Proof.
  intros Hne H. revert Hne.
  induction H as [|p rest Hp Hrest IH]; intros Hne; [contradiction|].
  clear Hne. destruct rest as [|q tl].
  - now apply paragraphs_of_piece.
  - change (join [LF; LF] (p :: q :: tl))
      with (p ++ [LF; LF] ++ join [LF; LF] (q :: tl)).
    rewrite paragraphs_of_piece_then by exact Hp.
    now rewrite IH.
Qed.

(** X1.  Whatever the text, the paragraphs a tile cuts the normalized
    response into are exactly the lines the normalizer joined: none is
    empty, none holds a line feed, and none has white space at either
    end. *)
Theorem rendered_paragraphs_are_trimmed_lines :
  forall text,
    standardizeResponse text = []
    \/ (join [LF; LF] (paragraphs (standardizeResponse text))
        = standardizeResponse text
        /\ Forall (fun p => p <> [] /\ ~ In LF p /\ trim p = p)
                  (paragraphs (standardizeResponse text))).
Proof.
  intros text. unfold standardizeResponse.
  destruct (negb (truthy text)); [now left|].
  cbv zeta. unfold respace.
  set (x := strip_links _).
  set (ls := filter truthy (map trim (split_on LF x))).
  assert (Hls : Forall (fun p => p <> [] /\ ~ In LF p /\ trim p = p) ls).
  { apply Forall_forall. intros p Hp. apply filter_In in Hp.
    destruct Hp as [Hin Ht]. apply in_map_iff in Hin.
    destruct Hin as (l & <- & Hl). repeat split.
    - intros E. rewrite E in Ht. discriminate.
    - intros Hin. apply in_trim in Hin.
      destruct (split_on_pieces LF x) as [_ Hfree].
      rewrite Forall_forall in Hfree. exact (Hfree l Hl Hin).
    - apply trim_idempotent. }
  clearbody ls. destruct ls as [|p tl]; [now left|]. right.
  rewrite paragraphs_join; [now split|discriminate|].
  apply Forall_forall. intros q Hq. rewrite Forall_forall in Hls.
  now apply Hls.
Qed.

(** ** Paragraph styles *)

(** X2.  A tile renders a paragraph as plain text exactly when it begins
    with none of the six glyphs the normalizer prepends. *)
Theorem plain_style_iff_no_glyph :
  forall p, paragraph_style p = Plain <-> carries_glyph p = false.
Proof.
  intros p. unfold paragraph_style, carries_glyph, glyphs. cbn [existsb].
  destruct (starts_with glyph_large p), (starts_with glyph_medium p),
    (starts_with glyph_small p), (starts_with glyph_bullet p),
    (starts_with glyph_pin p), (starts_with glyph_note p);
    cbn; split; intros H; try reflexivity; discriminate H.
Qed.

Lemma digit_is_no_marker (d : char) :
  is_digit d = true ->
  (0x23 =? d)%N = false /\ (0x2A =? d)%N = false /\ (0x2D =? d)%N = false
  /\ (0x3E =? d)%N = false.
Proof.
  intros H. repeat split;
    match goal with
    | |- (?a =? d)%N = false =>
        destruct (N.eqb_spec a d) as [<-|]; [discriminate H|reflexivity]
    end.
Qed.

Lemma numbered_line_gets_pin (d : char) (ds rest : jsstring) :
  forallb is_digit (d :: ds) = true ->
  glyph_line ((d :: ds) ++ lit ". " ++ rest)
  = glyph_pin ++ [SP] ++ (d :: ds) ++ lit ". " ++ rest.
Proof.
  intros H. pose proof H as Hd. cbn [forallb] in Hd.
  apply andb_true_iff in Hd. destruct Hd as [Hd _].
  destruct (digit_is_no_marker d Hd) as (H1 & H2 & H3 & H4).
  unfold glyph_line, quote_line, list_line, header_line.
  assert (Hskip : forall a p g, (a =? d)%N = false ->
            apply_rule (marker_rule (a :: p) g)
                       ((d :: ds) ++ lit ". " ++ rest)
            = (d :: ds) ++ lit ". " ++ rest).
  { intros a p g Ha. unfold apply_rule, marker_rule.
    cbn [app strip_prefix]. now rewrite Ha. }
  change (lit "###") with (0x23%N :: lit "##").
  change (lit "##") with (0x23%N :: lit "#").
  change (lit "#") with (0x23%N :: []).
  change (lit "*") with (0x2A%N :: []).
  change (lit "-") with (0x2D%N :: []).
  rewrite !Hskip by assumption.
  assert (Hnum : apply_rule (numbered_rule glyph_pin)
                            ((d :: ds) ++ lit ". " ++ rest)
                 = glyph_pin ++ [SP] ++ (d :: ds) ++ lit ". " ++ rest).
  { unfold apply_rule, numbered_rule.
    assert (Ht : take_while is_digit ((d :: ds) ++ lit ". " ++ rest)
                 = d :: ds /\
                 drop_while is_digit ((d :: ds) ++ lit ". " ++ rest)
                 = lit ". " ++ rest).
    { clear - H. induction (d :: ds) as [|c l IH]; [now split|].
      cbn [forallb] in H. apply andb_true_iff in H. destruct H as [Hc Hl].
      cbn [app take_while drop_while]. rewrite Hc.
      destruct (IH Hl) as [-> ->]. now split. }
    destruct Ht as [-> ->]. reflexivity. }
  rewrite Hnum. reflexivity.
Qed.

(** ** Pages *)

Lemma firstn_plus {A} (a b : nat) (l : list A) :
  firstn (a + b) l = firstn a l ++ firstn b (skipn a l).
Proof.
  revert l. induction a as [|a IH]; intros l; [reflexivity|].
  destruct l as [|x l]; cbn; [now rewrite firstn_nil|]. now rewrite IH.
Qed.

Lemma page_is_a_window (p : nat) (hist : list QueryResponse) :
  currentQueries (Z.of_nat p + 1) hist = firstn 5 (skipn (5 * p) hist).
Proof.
  unfold currentQueries, slice, ITEMS_PER_PAGE.
  replace ((Z.of_nat p + 1 - 1) * 5 <? 0)%Z with false
    by (symmetry; apply Z.ltb_ge; lia).
  replace ((Z.of_nat p + 1) * 5 <? 0)%Z with false
    by (symmetry; apply Z.ltb_ge; lia).
  destruct (Nat.le_gt_cases (length hist) (5 * p)) as [Hout|Hin].
  - rewrite (skipn_all2 hist Hout), firstn_nil.
    replace (Z.to_nat (Z.min ((Z.of_nat p + 1 - 1) * 5)
                             (Z.of_nat (length hist))))
      with (length hist) by lia.
    now rewrite skipn_all, firstn_nil.
  - replace (Z.to_nat (Z.min ((Z.of_nat p + 1 - 1) * 5)
                             (Z.of_nat (length hist))))
      with (5 * p)%nat by lia.
    destruct (Nat.le_gt_cases (length hist) (5 * p + 5)) as [Hlast|Hmore].
    + rewrite !firstn_all2; [reflexivity| |]; rewrite length_skipn; lia.
    + f_equal. lia.
Qed.

Lemma pages_up_to (n : nat) (hist : list QueryResponse) :
  concat (map (fun i => currentQueries (Z.of_nat i) hist) (seq 1 n))
  = firstn (5 * n) hist.
Proof.
  induction n as [|n IH]; [reflexivity|].
  rewrite seq_S, map_app, concat_app, IH. cbn [map concat].
  rewrite app_nil_r.
  replace (Z.of_nat (1 + n)) with (Z.of_nat n + 1)%Z by lia.
  rewrite page_is_a_window.
  replace (5 * S n)%nat with (5 * n + 5)%nat by lia.
  now rewrite firstn_plus.
Qed.

Lemma total_pages_bounds (hist : list QueryResponse) :
  (Z.of_nat (length hist) <= 5 * totalPages hist
   < Z.of_nat (length hist) + 5)%Z.
Proof.
  unfold totalPages, ITEMS_PER_PAGE.
  pose proof (Z.div_mod (Z.of_nat (length hist) + 5 - 1) 5 ltac:(lia)).
  pose proof (Z.mod_pos_bound (Z.of_nat (length hist) + 5 - 1) 5 ltac:(lia)).
  lia.
Qed.

(** X4.  The pages of five cut the history into consecutive pieces: every
    page holds at most five records, the pages from 1 to [totalPages]
    put one after the other give the history back, each of them holds
    something, and every later page is empty. *)
Theorem pages_partition_history :
  forall hist : list QueryResponse,
    (forall page, (1 <= page)%Z ->
                  (length (currentQueries page hist) <= 5)%nat)
    /\ concat (map (fun i => currentQueries (Z.of_nat i) hist)
                   (seq 1 (Z.to_nat (totalPages hist)))) = hist
    /\ (forall page, (1 <= page <= totalPages hist)%Z ->
                     currentQueries page hist <> [])
    /\ (forall page, (totalPages hist < page)%Z ->
                     currentQueries page hist = []).
Proof.
  intros hist. pose proof (total_pages_bounds hist) as Hb.
  assert (Hpage : forall page, (1 <= page)%Z ->
            currentQueries page hist
            = firstn 5 (skipn (5 * Z.to_nat (page - 1)) hist)).
  { intros page Hp. rewrite <- page_is_a_window. f_equal. lia. }
  repeat split.
  - intros page Hp. rewrite (Hpage page Hp), length_firstn. lia.
  - rewrite pages_up_to. apply firstn_all2. lia.
  - intros page Hp E. rewrite (Hpage page) in E by lia.
    apply (f_equal (@length _)) in E.
    rewrite length_firstn, length_skipn in E. cbn [length] in E. lia.
  - intros page Hp. rewrite (Hpage page) by lia.
    rewrite skipn_all2 by lia. apply firstn_nil.
Qed.

Lemma pages_partition_history_witness :
  (1 <= 1)%Z
  /\ (length (currentQueries 1 (queryHistory follow_up_state)) <= 5)%nat.
Proof.
  split; [lia|].
  exact (proj1 (pages_partition_history (queryHistory follow_up_state))
           1%Z ltac:(lia)).
Defined.

Lemma history_after_submit (st cur : State) (now : Z) :
  truthy (trim (queryText st)) = true ->
  queryHistory (run (handleSearch st now) cur)
  = newQuery st now :: map (mark_loading now) (queryHistory cur).
Proof.
  intros Hq. unfold handleSearch. rewrite Hq. cbn.
  unfold mark_loading at 1. cbn. now rewrite Z.eqb_refl.
Qed.

(** X5.  Right after a submission each tile reads ['Loading...'].  Once
    a provider's call has settled and the updater has returned a text,
    its tile reads that text, however many older queries the history
    holds; when [standardizeResponse] throws on what the call resolved
    to, the page is unmounted and there is no tile. *)
Theorem tiles_follow_the_newest_query :
  forall (st : State) (now : Z) (llm : LLM) (outcome : M value),
    truthy (trim (queryText st)) = true ->
    tile_response llm (run (handleSearch st now) st)
    = Some (lit "Loading...")
    /\ (forall text : jsstring,
          resolved_text llm outcome = inr text ->
          option_map (tile_response llm)
            (updateResponse now llm outcome (run (handleSearch st now) st))
          = Some (Some text))
    /\ (forall e : thrown,
          resolved_text llm outcome = inl e ->
          updateResponse now llm outcome (run (handleSearch st now) st)
          = None).
Proof.
  intros st now llm outcome Hq.
  pose proof (history_after_submit st st now Hq) as E.
  unfold tile_response, currentPage.
  assert (Hp : forall h, currentQueries 1 h = firstn 5 h)
    by (intros h; exact (page_is_a_window 0 h)).
  split; [|split].
  - rewrite Hp, E. cbn. now destruct llm.
  - intros text Ht.
    rewrite (updateResponse_returns now llm outcome _ Ht).
    cbn [option_map run fold_left apply queryHistory]. rewrite Hp, E.
    cbn [map firstn nth_error option_map].
    unfold update_slot at 1. cbn [timestamp newQuery].
    rewrite Z.eqb_refl. cbn. now destruct llm.
  - intros e He. apply (updateResponse_throws now llm outcome _ He).
    rewrite E. now left.
Qed.

Lemma tiles_follow_the_newest_query_witness :
  truthy (trim (queryText follow_up_state)) = true
  /\ tile_response Gemini
       (run (handleSearch follow_up_state 1700000001000) follow_up_state)
     = Some (lit "Loading...")
  /\ option_map (tile_response Gemini)
       (updateResponse 1700000001000 Gemini (ret (VString (lit "Hi")))
          (run (handleSearch follow_up_state 1700000001000)
               follow_up_state))
     = Some (Some (lit "Hi")).
Proof.
  split; [reflexivity|].
  pose proof (tiles_follow_the_newest_query follow_up_state
                1700000001000 Gemini (ret (VString (lit "Hi"))) eq_refl)
    as (H1 & H2 & _).
  split; [exact H1|]. exact (H2 (lit "Hi") eq_refl).
Defined.

(** X6.  The stored theme is read back as it was written.  With nothing
    stored, or with the empty string stored, the page is dark; any other
    stored value than ['dark'] means light. *)
Theorem theme_round_trip :
  (forall isDarkMode,
      theme_of_storage (Some (storage_of_theme isDarkMode)) = isDarkMode)
  /\ theme_of_storage None = true
  /\ theme_of_storage (Some []) = true
  /\ (forall s, s <> [] -> s <> lit "dark" ->
                theme_of_storage (Some s) = false).
Proof.
  repeat split.
  - now intros [].
  - intros s Hne Hs. unfold theme_of_storage.
    destruct s as [|c s]; [contradiction|]. cbn [truthy is_empty negb].
    destruct (jsstring_eqb (c :: s) (lit "dark")) eqn:E; [|reflexivity].
    exfalso. apply Hs. clear - E.
    revert E. generalize (lit "dark"). generalize (c :: s).
    induction l as [|x l IH]; intros [|y l0] E; cbn in E;
      try discriminate; [reflexivity|].
    apply andb_true_iff in E. destruct E as [Exy El].
    apply N.eqb_eq in Exy. subst. f_equal. now apply IH.
Qed.

Lemma theme_round_trip_witness :
  lit "Dark" <> [] /\ lit "Dark" <> lit "dark"
  /\ theme_of_storage (Some (lit "Dark")) = false.
Proof.
  assert (H1 : lit "Dark" <> []) by discriminate.
  assert (H2 : lit "Dark" <> lit "dark") by discriminate.
  split; [exact H1|]. split; [exact H2|].
  exact (proj2 (proj2 (proj2 theme_round_trip)) (lit "Dark") H1 H2).
Defined.

(** ** The history under several events *)

Lemma update_slot_commute (ts : Z) (a b : LLM) (v w : jsstring)
      (q : QueryResponse) :
  a <> b ->
  update_slot ts a v (update_slot ts b w q)
  = update_slot ts b w (update_slot ts a v q).
Proof.
  intros Hab. unfold update_slot.
  destruct (timestamp q =? ts)%Z eqn:E; cbn [timestamp]; rewrite ?E;
    [|reflexivity].
  destruct a, b; try contradiction; reflexivity.
Qed.

Lemma update_slot_timestamp (ts : Z) (llm : LLM) (v : jsstring)
      (hist : list QueryResponse) :
  map timestamp (map (update_slot ts llm v) hist) = map timestamp hist.
Proof.
  rewrite map_map. apply map_ext. intros q. unfold update_slot.
  now destruct (timestamp q =? ts)%Z.
Qed.

Lemma updateResponse_timestamps (ts : Z) (llm : LLM) (outcome : M value)
      (st st' : State) :
  updateResponse ts llm outcome st = Some st' ->
  map timestamp (queryHistory st') = map timestamp (queryHistory st).
Proof.
  intros H. unfold updateResponse in H.
  destruct (update_history ts llm (resolved_text llm outcome)
                           (queryHistory st)) as [e|hist] eqn:E;
    [discriminate|].
  injection H as <-. cbn [run fold_left apply queryHistory].
  pose proof (update_history_frame ts llm _ _ E) as F. clear E.
  induction F as [|q q' l l' (_ & Ht & _) _ IH]; cbn; [reflexivity|].
  now rewrite Ht, IH.
Qed.

(** X7.  The order in which two providers settle does not matter: the
    slot updates of two different providers commute, and so does what
    becomes of the page when one of them throws. *)
Theorem provider_updates_commute :
  forall (ts : Z) (a b : LLM) (oa ob : M value) (st : State),
    a <> b ->
    and_then (updateResponse ts a oa st) (updateResponse ts b ob)
    = and_then (updateResponse ts b ob st) (updateResponse ts a oa).
Proof.
  intros ts a b oa ob st Hab.
  destruct (in_dec Z.eq_dec ts (map timestamp (queryHistory st)))
    as [Hin|Hout].
  - assert (Hlater : forall llm o st',
               updateResponse ts llm o st = Some st' ->
               In ts (map timestamp (queryHistory st'))).
    { intros llm o st' H.
      now rewrite (updateResponse_timestamps ts llm o st H). }
    destruct (resolved_text a oa) as [ea|va] eqn:Ea;
      destruct (resolved_text b ob) as [eb|vb] eqn:Eb.
    + now rewrite (updateResponse_throws ts a oa st Ea Hin),
        (updateResponse_throws ts b ob st Eb Hin).
    + rewrite (updateResponse_throws ts a oa st Ea Hin).
      destruct (updateResponse ts b ob st) as [st'|] eqn:E; [|reflexivity].
      cbn [and_then]. symmetry.
      apply (updateResponse_throws ts a oa st' Ea). exact (Hlater _ _ _ E).
    + rewrite (updateResponse_throws ts b ob st Eb Hin).
      destruct (updateResponse ts a oa st) as [st'|] eqn:E; [|reflexivity].
      cbn [and_then].
      apply (updateResponse_throws ts b ob st' Eb). exact (Hlater _ _ _ E).
    + rewrite (updateResponse_returns ts a oa st Ea),
        (updateResponse_returns ts b ob st Eb).
      cbn [and_then].
      rewrite (updateResponse_returns ts b ob _ Eb),
        (updateResponse_returns ts a oa _ Ea).
      cbn. do 2 f_equal. rewrite !map_map. apply map_ext. intros q.
      symmetry. now apply update_slot_commute.
  - rewrite (updateResponse_absent ts a oa st Hout),
      (updateResponse_absent ts b ob st Hout).
    cbn [and_then].
    now rewrite (updateResponse_absent ts a oa st Hout),
      (updateResponse_absent ts b ob st Hout).
Qed.

Lemma provider_updates_commute_witness :
  Gemini <> Chatgpt
  /\ and_then (updateResponse 1700000000500 Gemini (ret (VString titled))
                              follow_up_state)
              (updateResponse 1700000000500 Chatgpt (ret VNull))
     = and_then (updateResponse 1700000000500 Chatgpt (ret VNull)
                                follow_up_state)
                (updateResponse 1700000000500 Gemini
                                (ret (VString titled))).
Proof.
  assert (H : Gemini <> Chatgpt) by discriminate.
  split; [exact H|].
  exact (provider_updates_commute 1700000000500 (ret (VString titled))
           (ret VNull) follow_up_state H).
Defined.

(** X8.  Once the three calls of a query have settled, in the order
    [handleSearch] entered them, and each updater has returned its text,
    every record with the query's timestamp holds the three texts,
    whatever its slots held before.  When the history holds such a
    record and [standardizeResponse] throws on one of the three results,
    the page is unmounted instead. *)
Theorem three_updates_fill_the_bundle :
  forall (ts : Z) (oc op og : M value) (st : State),
    (forall tc tp tg : jsstring,
        resolved_text Chatgpt oc = inr tc ->
        resolved_text Perplexity op = inr tp ->
        resolved_text Gemini og = inr tg ->
        exists st' : State,
          and_then (and_then (updateResponse ts Chatgpt oc st)
                             (updateResponse ts Perplexity op))
                   (updateResponse ts Gemini og)
          = Some st'
          /\ Forall (fun q =>
                       timestamp q = ts ->
                       responses q
                       = {| perplexity := tp; chatgpt := tc;
                            gemini := tg |})
                    (queryHistory st'))
    /\ (In ts (map timestamp (queryHistory st)) ->
        (exists e, resolved_text Chatgpt oc = inl e
                   \/ resolved_text Perplexity op = inl e
                   \/ resolved_text Gemini og = inl e) ->
        and_then (and_then (updateResponse ts Chatgpt oc st)
                           (updateResponse ts Perplexity op))
                 (updateResponse ts Gemini og)
        = None).
Proof.
  intros ts oc op og st. split.
  - intros tc tp tg Hc Hp Hg.
    rewrite (updateResponse_returns ts Chatgpt oc st Hc). cbn [and_then].
    rewrite (updateResponse_returns ts Perplexity op _ Hp). cbn [and_then].
    rewrite (updateResponse_returns ts Gemini og _ Hg).
    eexists. split; [reflexivity|].
    cbn. rewrite !map_map.
    apply Forall_forall. intros q Hq. apply in_map_iff in Hq.
    destruct Hq as (q0 & <- & _). unfold update_slot.
    destruct (timestamp q0 =? ts)%Z eqn:E;
      repeat (cbn [timestamp]; rewrite ?E).
    + intros _. reflexivity.
    + intros H. apply Z.eqb_neq in E. contradiction.
  - intros Hin (e & He).
    destruct (updateResponse ts Chatgpt oc st) as [s1|] eqn:E1;
      [|reflexivity].
    cbn [and_then].
    assert (H1 : In ts (map timestamp (queryHistory s1)))
      by now rewrite (updateResponse_timestamps ts Chatgpt oc st E1).
    destruct (updateResponse ts Perplexity op s1) as [s2|] eqn:E2;
      [|reflexivity].
    cbn [and_then].
    assert (H2 : In ts (map timestamp (queryHistory s2)))
      by now rewrite (updateResponse_timestamps ts Perplexity op s1 E2).
    destruct He as [He|[He|He]].
    + rewrite (updateResponse_throws ts Chatgpt oc st He Hin) in E1.
      discriminate.
    + rewrite (updateResponse_throws ts Perplexity op s1 He H1) in E2.
      discriminate.
    + exact (updateResponse_throws ts Gemini og s2 He H2).
Qed.

Lemma three_updates_fill_the_bundle_witness :
  exists st' : State,
    and_then (and_then (updateResponse 1700000000500 Chatgpt
                                       (ret (VString (lit "Hi")))
                                       follow_up_state)
                       (updateResponse 1700000000500 Perplexity
                                       (ret VNull)))
             (updateResponse 1700000000500 Gemini (throw OtherValue))
    = Some st'
    /\ Forall (fun q =>
                 timestamp q = 1700000000500%Z ->
                 responses q
                 = {| perplexity := [];
                      chatgpt := lit "Hi";
                      gemini := lit "Error (gemini): Unknown error" |})
              (queryHistory st').
Proof.
  exact (proj1 (three_updates_fill_the_bundle 1700000000500
                  (ret (VString (lit "Hi"))) (ret VNull)
                  (throw OtherValue) follow_up_state)
           (lit "Hi") [] (lit "Error (gemini): Unknown error")
           eq_refl eq_refl eq_refl).
Defined.

Lemma filter_keeps_all {A} (f : A -> bool) (l : list A) :
  (forall x, In x l -> f x = true) -> filter f l = l.
Proof.
  induction l as [|x l IH]; intros H; cbn; [reflexivity|].
  rewrite (H x (or_introl eq_refl)). f_equal. apply IH.
  intros y Hy. apply H. now right.
Qed.

(** X9.  Deleting a query whose timestamp no other record shares takes
    exactly that record out: the records before it and after it stay, in
    their order. *)
Theorem delete_removes_exactly_one :
  forall (ts : Z) (st : State) (before after : list QueryResponse)
         (q : QueryResponse),
    queryHistory st = before ++ q :: after ->
    timestamp q = ts ->
    ~ In ts (map timestamp before) ->
    ~ In ts (map timestamp after) ->
    queryHistory (run (handleDeleteQuery ts) st) = before ++ after.
Proof.
  intros ts st before after q E Hq Hb Ha. cbn. rewrite E, filter_app.
  cbn [filter]. rewrite Hq, Z.eqb_refl. cbn [negb].
  rewrite !filter_keeps_all; [reflexivity| |];
    intros x Hx; apply negb_true_iff, Z.eqb_neq; intros Ex;
    [apply Ha|apply Hb]; apply in_map_iff; now exists x.
Qed.

Lemma delete_removes_exactly_one_witness :
  queryHistory follow_up_state = [pending_record] ++ parent_record :: []
  /\ queryHistory (run (handleDeleteQuery 1700000000000) follow_up_state)
     = [pending_record] ++ [].
Proof.
  split; [reflexivity|].
  apply (@delete_removes_exactly_one 1700000000000 follow_up_state
           [pending_record] [] parent_record eq_refl eq_refl).
  - cbn. intros [E|[]]. discriminate E.
  - cbn. tauto.
Defined.

(** ** Sessions *)

Lemma history_untouched (calls : list call) (st : State) :
  Forall (fun c => match c with setQueryHistory _ => False | _ => True end)
         calls ->
  queryHistory (run calls st) = queryHistory st.
Proof.
  intros H. revert st. induction H as [|c calls Hc _ IH]; intros st.
  - reflexivity.
  - rewrite run_cons, IH. now destruct c.
Qed.

Lemma upload_leaves_history (f : option File) (st : State) :
  queryHistory (run (handleFileUpload f) st) = queryHistory st.
Proof.
  apply history_untouched. unfold handleFileUpload.
  destruct f as [f|]; [|constructor].
  destruct (bind _ _); repeat constructor.
Qed.

Lemma descending_filter (f : QueryResponse -> bool)
      (hist : list QueryResponse) :
  StronglySorted Z.gt (map timestamp hist) ->
  StronglySorted Z.gt (map timestamp (filter f hist)).
Proof.
  induction hist as [|q hist IH]; cbn; intros H; [constructor|].
  inversion H as [|? ? Hs Hall]; subst. destruct (f q); cbn.
  - constructor; [now apply IH|].
    rewrite Forall_forall in *. intros t Ht. apply Hall.
    apply in_map_iff in Ht. destruct Ht as (x & <- & Hx).
    apply filter_In in Hx. apply in_map. now destruct Hx.
  - now apply IH.
Qed.

Lemma step_keeps_descending (st : State) (ev : event) :
  StronglySorted Z.gt (map timestamp (queryHistory st)) ->
  match ev with
  | Submit now => Forall (fun q => (timestamp q < now)%Z) (queryHistory st)
  | _ => True
  end ->
  StronglySorted Z.gt (map timestamp (queryHistory (step st ev))).
Proof.
  intros Hs Hclock. unfold step. destruct ev as [now|ts|q ts|t|z|f].
  - cbn [handle]. destruct (truthy (trim (queryText st))) eqn:Hq.
    + rewrite (history_after_submit st st now Hq). cbn [map timestamp newQuery].
      rewrite mark_loading_timestamp. constructor; [exact Hs|].
      rewrite Forall_forall in *. intros t Ht.
      apply in_map_iff in Ht. destruct Ht as (x & <- & Hx).
      specialize (Hclock x Hx). lia.
    + unfold handleSearch. rewrite Hq. exact Hs.
  - cbn. now apply descending_filter.
  - exact Hs.
  - exact Hs.
  - destruct z; exact Hs.
  - cbn [handle]. now rewrite upload_leaves_history.
Qed.

Lemma occur_keeps_descending (st st' : State) (o : occurrence) :
  StronglySorted Z.gt (map timestamp (queryHistory st)) ->
  match o with
  | User (Submit now) =>
      Forall (fun q => (timestamp q < now)%Z) (queryHistory st)
  | _ => True
  end ->
  occur st o = Some st' ->
  StronglySorted Z.gt (map timestamp (queryHistory st')).
Proof.
  intros Hs Hclock H. destruct o as [ev|ts llm outcome]; cbn [occur] in H.
  - injection H as <-. apply step_keeps_descending; [exact Hs|].
    now destruct ev.
  - now rewrite (updateResponse_timestamps ts llm outcome st H).
Qed.

Lemma descending_no_dup (l : list Z) : StronglySorted Z.gt l -> NoDup l.
Proof.
  induction 1 as [|x l Hs IH Hall]; constructor; [|exact IH].
  intros Hin. rewrite Forall_forall in Hall. specialize (Hall x Hin). lia.
Qed.

(** X10.  As long as every submission is stamped later than the records
    already there, the history of a page that is still mounted stays
    ordered newest first through any sequence of submissions, settled
    calls, deletions, follow-up clicks, edits, zooms and uploads, and no
    two records share a timestamp. *)
Theorem history_stays_newest_first :
  forall (os : list occurrence) (st st' : State),
    StronglySorted Z.gt (map timestamp (queryHistory st)) ->
    clock_moves_on st os ->
    session st os = Some st' ->
    StronglySorted Z.gt (map timestamp (queryHistory st'))
    /\ NoDup (map timestamp (queryHistory st')).
Proof.
  assert (H : forall os st st',
             StronglySorted Z.gt (map timestamp (queryHistory st)) ->
             clock_moves_on st os ->
             session st os = Some st' ->
             StronglySorted Z.gt (map timestamp (queryHistory st'))).
  { induction os as [|o os IH]; intros st st' Hs Hc E.
    - cbn in E. injection E as <-. exact Hs.
    - cbn [clock_moves_on] in Hc. destruct Hc as [Hnow Hrest].
      cbn [session] in E.
      destruct (occur st o) as [st1|] eqn:E1; [|discriminate].
      cbn [and_then] in E. apply (IH st1 st'); [|exact Hrest|exact E].
      exact (occur_keeps_descending st o Hs Hnow E1). }
  intros os st st' Hs Hc E. split; [now apply (H os st)|].
  apply descending_no_dup. now apply (H os st).
Qed.

Lemma history_stays_newest_first_witness :
  StronglySorted Z.gt (map timestamp (queryHistory follow_up_state))
  /\ clock_moves_on follow_up_state
       [User (Submit 1700000001000);
        Settle 1700000001000 Gemini (ret VNull);
        User (Remove 1700000000500)]
  /\ exists st' : State,
       session follow_up_state
         [User (Submit 1700000001000);
          Settle 1700000001000 Gemini (ret VNull);
          User (Remove 1700000000500)]
       = Some st'
       /\ NoDup (map timestamp (queryHistory st')).
Proof.
  assert (Hs : StronglySorted Z.gt
                 (map timestamp (queryHistory follow_up_state))).
  { cbn. repeat constructor. }
  assert (Hc : clock_moves_on follow_up_state
                 [User (Submit 1700000001000);
                  Settle 1700000001000 Gemini (ret VNull);
                  User (Remove 1700000000500)]).
  { cbn. repeat split. repeat constructor. }
  split; [exact Hs|]. split; [exact Hc|].
  eexists. split; [reflexivity|].
  exact (proj2 (@history_stays_newest_first _ _ _ Hs Hc eq_refl)).
Defined.

Lemma text_size_untouched (calls : list call) (st : State) :
  Forall (fun c => match c with setTextSize _ => False | _ => True end)
         calls ->
  textSize (run calls st) = textSize st.
Proof.
  intros H. revert st. induction H as [|c calls Hc _ IH]; intros st.
  - reflexivity.
  - rewrite run_cons, IH. now destruct c.
Qed.

Lemma updateResponse_text_size (ts : Z) (llm : LLM) (outcome : M value)
      (st st' : State) :
  updateResponse ts llm outcome st = Some st' ->
  textSize st' = textSize st.
Proof.
  unfold updateResponse.
  destruct (update_history _ _ _ _); [discriminate|].
  intros H. injection H as <-. reflexivity.
Qed.

(** X11.  Zooming is the only thing that changes the text size: an event
    other than a zoom, and the settling of a call, leave it as it is, so
    from the initial state it stays between 12 and 32 through any
    sequence of occurrences, as long as the page is mounted. *)
Theorem text_size_bound_over_sessions :
  (forall (st : State) (ev : event),
      match ev with Zoom _ => True | _ => textSize (step st ev) = textSize st
      end)
  /\ (forall (ts : Z) (llm : LLM) (outcome : M value) (st st' : State),
         updateResponse ts llm outcome st = Some st' ->
         textSize st' = textSize st)
  /\ (forall (os : list occurrence) (st' : State),
         session initial_state os = Some st' ->
         (12 <= textSize st' <= 32)%Z).
Proof.
  assert (Hstep : forall st ev,
             match ev with
             | Zoom _ => True
             | _ => textSize (step st ev) = textSize st
             end).
  { intros st ev. unfold step.
    destruct ev as [now|ts|q ts|t|z|f]; try reflexivity; try exact I.
    - apply text_size_untouched. cbn [handle]. unfold handleSearch.
      destruct (negb _); repeat constructor.
    - apply text_size_untouched. cbn [handle]. unfold handleFileUpload.
      destruct f as [f|]; [|constructor].
      destruct (bind _ _); repeat constructor. }
  split; [exact Hstep|]. split; [exact updateResponse_text_size|].
  assert (H : forall os st st', (12 <= textSize st <= 32)%Z ->
                                session st os = Some st' ->
                                (12 <= textSize st' <= 32)%Z).
  { induction os as [|o os IH]; intros st st' Hb E.
    - cbn in E. injection E as <-. exact Hb.
    - cbn [session] in E.
      destruct (occur st o) as [st1|] eqn:E1; [|discriminate].
      cbn [and_then] in E. apply (IH st1 st'); [|exact E].
      destruct o as [ev|ts llm outcome]; cbn [occur] in E1.
      + injection E1 as <-. pose proof (Hstep st ev) as Hev.
        destruct ev; try (rewrite Hev; exact Hb).
        now apply zoom_step_bounds.
      + now rewrite (updateResponse_text_size ts llm outcome st E1). }
  intros os st' E. apply (H os initial_state st'); [cbn; lia|exact E].
Qed.

Lemma text_size_bound_over_sessions_witness :
  exists st' : State,
    session initial_state
      [User (Zoom ZoomIn); User (Edit (lit "Hi")); User (Submit 5);
       Settle 5 Gemini (ret VNull); User (Zoom ZoomOut)]
    = Some st'
    /\ (12 <= textSize st' <= 32)%Z.
Proof.
  eexists. split; [reflexivity|].
  exact (proj2 (proj2 text_size_bound_over_sessions)
           [User (Zoom ZoomIn); User (Edit (lit "Hi")); User (Submit 5);
            Settle 5 Gemini (ret VNull); User (Zoom ZoomOut)]
           _ eq_refl).
Defined.

(** X12.  Submitting a query changes nothing but the history and the
    searching flag: the text box, the selected parent, the error and the
    file fields are left as they are, the flag is down again when the
    handler returns, and a blank query changes nothing at all. *)
Theorem submit_touches_history_only :
  forall (st cur : State) (now : Z),
    queryText (run (handleSearch st now) cur) = queryText cur
    /\ selectedQuery (run (handleSearch st now) cur) = selectedQuery cur
    /\ error (run (handleSearch st now) cur) = error cur
    /\ fileName (run (handleSearch st now) cur) = fileName cur
    /\ fileContent (run (handleSearch st now) cur) = fileContent cur
    /\ (truthy (trim (queryText st)) = true ->
        isSearching (run (handleSearch st now) cur) = false)
    /\ (trim (queryText st) = [] -> run (handleSearch st now) cur = cur).
Proof.
  intros st cur now. unfold handleSearch.
  destruct (trim (queryText st)) as [|c t]; cbn.
  - repeat split; try reflexivity. discriminate.
  - repeat split; try reflexivity. discriminate.
Qed.

Lemma submit_touches_history_only_witness :
  truthy (trim (queryText follow_up_state)) = true
  /\ isSearching (run (handleSearch follow_up_state 1700000001000)
                      follow_up_state) = false.
Proof.
  split; [reflexivity|].
  exact (proj1 (proj2 (proj2 (proj2 (proj2 (proj2
           (submit_touches_history_only follow_up_state follow_up_state
              1700000001000)))))) eq_refl).
Defined.

(** ** Follow-ups *)

Lemma find_absent {A} (f : A -> bool) (l : list A) :
  (forall x, In x l -> f x = false) -> find f l = None.
Proof.
  induction l as [|x l IH]; intros H; cbn; [reflexivity|].
  rewrite (H x (or_introl eq_refl)). apply IH. intros y Hy. apply H.
  now right.
Qed.

Lemma find_after_mark_loading (sel now : Z) (hist : list QueryResponse) :
  find (fun q => (timestamp q =? sel)%Z) (map (mark_loading now) hist)
  = option_map (mark_loading now)
               (find (fun q => (timestamp q =? sel)%Z) hist).
Proof.
  induction hist as [|q hist IH]; cbn; [reflexivity|].
  assert (E : timestamp (mark_loading now q) = timestamp q).
  { unfold mark_loading. now destruct (timestamp q =? now)%Z. }
  rewrite E. now destruct (timestamp q =? sel)%Z.
Qed.

(** X13.  A click on the follow-up button of a record, followed by typing
    a question, makes that record the parent of the next query: the text
    box is preset with the quoted question, and the record created on
    submission carries the parent's timestamp as [parentId].  A record
    stamped [0] cannot be followed up: the selection counts as none. *)
Theorem follow_up_links_to_parent :
  (forall (st : State) (q text : jsstring) (ts now : Z)
          (parent : QueryResponse),
      ts <> 0%Z ->
      find (fun r => (timestamp r =? ts)%Z) (queryHistory st) = Some parent ->
      queryText (step st (FollowUp q ts))
      = lit "Following up on: " ++ [0x22%N] ++ q ++ [0x22%N] ++ [LF; LF]
          ++ lit "My question: "
      /\ parentQuery (step (step st (FollowUp q ts)) (Edit text))
         = Some parent
      /\ parentId (newQuery (step (step st (FollowUp q ts)) (Edit text)) now)
         = Some ts)
  /\ (forall (st : State) (q : jsstring),
         parentQuery (step st (FollowUp q 0)) = None).
Proof.
  split.
  - intros st q text ts now parent Hts Hfind.
    assert (Hp : parentQuery (step (step st (FollowUp q ts)) (Edit text))
                 = Some parent).
    { unfold parentQuery. cbn.
      destruct (Z.eqb_spec ts 0); [contradiction|exact Hfind]. }
    split; [reflexivity|]. split; [exact Hp|].
    unfold newQuery. cbn [parentId]. rewrite Hp. cbn [option_map].
    apply find_some in Hfind. destruct Hfind as [_ E].
    apply Z.eqb_eq in E. now rewrite E.
  - reflexivity.
Qed.

Lemma follow_up_links_to_parent_witness :
  1700000000000%Z <> 0%Z
  /\ find (fun r => (timestamp r =? 1700000000000)%Z)
          (queryHistory follow_up_state) = Some parent_record
  /\ parentId (newQuery (step (step follow_up_state
                                    (FollowUp (lit "What is a monad?")
                                              1700000000000))
                              (Edit (lit "Why?")))
                        1700000001000)
     = Some 1700000000000%Z.
Proof.
  assert (H : 1700000000000%Z <> 0%Z) by discriminate.
  split; [exact H|]. split; [reflexivity|].
  exact (proj2 (proj2 (proj1 follow_up_links_to_parent follow_up_state
                         (lit "What is a monad?") (lit "Why?")
                         1700000000000%Z 1700000001000%Z parent_record
                         H eq_refl))).
Defined.

(** X14.  A submission does not end the follow-up: the parent selected
    for one query is still the parent of the next one, as long as the
    new timestamp is not the parent's. *)
Theorem selection_outlives_submit :
  forall (st : State) (now : Z) (parent : QueryResponse),
    parentQuery st = Some parent ->
    truthy (trim (queryText st)) = true ->
    timestamp parent <> now ->
    parentQuery (step st (Submit now)) = Some parent.
Proof.
  intros st now parent Hp Hq Hnow. unfold parentQuery in *.
  unfold step. cbn [handle].
  rewrite (history_after_submit st st now Hq).
  assert (Hsel : selectedQuery (run (handleSearch st now) st)
                 = selectedQuery st).
  { unfold handleSearch. rewrite Hq. reflexivity. }
  rewrite Hsel. destruct (selectedQuery st) as [sel|]; [|discriminate].
  destruct (sel =? 0)%Z; [discriminate|].
  pose proof (find_some _ _ Hp) as [_ E]. apply Z.eqb_eq in E.
  cbn [find timestamp newQuery].
  destruct (Z.eqb_spec now sel) as [->|_]; [contradiction|].
  rewrite find_after_mark_loading, Hp. cbn [option_map].
  unfold mark_loading.
  destruct (Z.eqb_spec (timestamp parent) now); [contradiction|reflexivity].
Qed.

Lemma selection_outlives_submit_witness :
  parentQuery follow_up_state = Some parent_record
  /\ truthy (trim (queryText follow_up_state)) = true
  /\ timestamp parent_record <> 1700000001000%Z
  /\ parentQuery (step follow_up_state (Submit 1700000001000))
     = Some parent_record.
Proof.
  assert (H : timestamp parent_record <> 1700000001000%Z) by discriminate.
  split; [reflexivity|]. split; [reflexivity|]. split; [exact H|].
  exact (@selection_outlives_submit follow_up_state 1700000001000
           parent_record eq_refl eq_refl H).
Defined.

(** X15.  Deleting the record that is selected as parent leaves the
    selection in place but nothing to find: the next prompt is built
    without any previous question or answers. *)
Theorem deleting_the_parent_drops_the_context :
  forall (st : State) (ts : Z),
    selectedQuery st = Some ts ->
    selectedQuery (step st (Remove ts)) = Some ts
    /\ parentQuery (step st (Remove ts)) = None
    /\ contextualPrompt (step st (Remove ts))
       = lit "User Type: " ++ or_default (userType st) (lit "Not specified")
           ++ [LF] ++ lit "Query Type: "
           ++ or_default (queryType st) (lit "Not specified")
           ++ [LF; LF] ++ queryText st.
Proof.
  intros st ts Hsel.
  assert (Hp : parentQuery (step st (Remove ts)) = None).
  { unfold parentQuery. cbn. rewrite Hsel.
    destruct (ts =? 0)%Z; [reflexivity|].
    apply find_absent. intros x Hx. apply filter_In in Hx.
    destruct Hx as [_ Hx]. now apply negb_true_iff in Hx. }
  split; [exact Hsel|]. split; [exact Hp|].
  unfold contextualPrompt. rewrite Hp. reflexivity.
Qed.

Lemma deleting_the_parent_drops_the_context_witness :
  selectedQuery follow_up_state = Some 1700000000000%Z
  /\ parentQuery (step follow_up_state (Remove 1700000000000)) = None.
Proof.
  split; [reflexivity|].
  exact (proj1 (proj2 (@deleting_the_parent_drops_the_context
                         follow_up_state 1700000000000 eq_refl))).
Defined.

(** ** Uploads *)

(** X16.  A file whose text has at most 50 000 code units, 50 000
    included, is taken over: the text goes into the text box and the file
    content, the file name is kept and no error is shown. *)
Theorem small_upload_fills_the_query :
  forall (f : File) (content : jsstring) (st : State),
    readFileContent f = inr content ->
    (Z.of_nat (length content) <= 50000)%Z ->
    queryText (run (handleFileUpload (Some f)) st) = content
    /\ fileContent (run (handleFileUpload (Some f)) st) = content
    /\ fileName (run (handleFileUpload (Some f)) st) = name f
    /\ error (run (handleFileUpload (Some f)) st) = None.
Proof.
  intros f content st Hread Hlen. unfold handleFileUpload.
  rewrite Hread. cbn [bind].
  replace (50000 <? Z.of_nat (length content))%Z with false
    by (symmetry; apply Z.ltb_ge; lia).
  repeat split.
Qed.

Lemma small_upload_fills_the_query_witness :
  (Z.of_nat (length (repeat 0x61%N (Z.to_nat 50000))) <= 50000)%Z
  /\ queryText (run (handleFileUpload
                       (Some {| name := lit "max.txt";
                                readFileContent :=
                                  ret (repeat 0x61%N (Z.to_nat 50000)) |}))
                    follow_up_state)
     = repeat 0x61%N (Z.to_nat 50000).
Proof.
  assert (H : (Z.of_nat (length (repeat 0x61%N (Z.to_nat 50000)))
               <= 50000)%Z).
  { rewrite repeat_length. lia. }
  split; [exact H|].
  exact (proj1 (@small_upload_fills_the_query
                  {| name := lit "max.txt";
                     readFileContent :=
                       ret (repeat 0x61%N (Z.to_nat 50000)) |}
                  _ follow_up_state eq_refl H)).
Defined.

(** X17.  When reading the file fails, the text box keeps what it held,
    the file name and content are reset, and the error shown is the
    message of what was thrown, or a fixed text when that was no
    [Error]. *)
Theorem failed_read_keeps_the_query :
  forall (f : File) (e : thrown) (st : State),
    readFileContent f = inl e ->
    queryText (run (handleFileUpload (Some f)) st) = queryText st
    /\ fileName (run (handleFileUpload (Some f)) st) = []
    /\ fileContent (run (handleFileUpload (Some f)) st) = []
    /\ error (run (handleFileUpload (Some f)) st)
       = Some (match e with
               | ErrorObject m => m
               | OtherValue => lit "Error reading file. Please try again."
               end).
Proof.
  intros f e st Hread. unfold handleFileUpload. rewrite Hread.
  cbn [bind]. repeat split.
Qed.

Lemma failed_read_keeps_the_query_witness :
  readFileContent {| name := lit "x.bin"; readFileContent := throw OtherValue |}
  = inl OtherValue
  /\ error (run (handleFileUpload
                   (Some {| name := lit "x.bin";
                            readFileContent := throw OtherValue |}))
                follow_up_state)
     = Some (lit "Error reading file. Please try again.").
Proof.
  split; [reflexivity|].
  exact (proj2 (proj2 (proj2 (@failed_read_keeps_the_query
                                {| name := lit "x.bin";
                                   readFileContent := throw OtherValue |}
                                OtherValue follow_up_state eq_refl)))).
Defined.

(** ** Reading an uploaded file *)

Lemma jsstring_eqb_refl (s : jsstring) : jsstring_eqb s s = true.
Proof.
  induction s as [|c s IH]; cbn; [reflexivity|]. now rewrite N.eqb_refl.
Qed.

(** X18.  Whatever goes wrong while a file is read, with the type test or
    inside a processor, [readFileContent] rejects with an [Error] whose
    message starts with [Error processing file: ]. *)
Theorem read_failures_are_wrapped :
  forall (toLowerCase : jsstring -> jsstring)
         (pretty_json : jsstring -> option jsstring)
         (html_content : jsstring -> jsstring)
         (xml_content : jsstring -> M jsstring)
         (f : Files.file) (e : thrown),
    Files.readFileContent toLowerCase pretty_json html_content xml_content f
    = inl e ->
    exists msg, e = ErrorObject (lit "Error processing file: " ++ msg).
Proof.
  intros lower pretty html xml f e. unfold Files.readFileContent, try_catch.
  destruct (match Files.fileType lower f with
            | Some _ => _ | None => _ end) as [e0|s]; [|discriminate].
  unfold throw. intros H. injection H as <-. eexists. reflexivity.
Qed.

Lemma read_failures_are_wrapped_witness :
  Files.readFileContent (fun s => s) (fun _ => None) (fun s => s)
    (fun s => ret s)
    {| Files.file_name := lit "data.json";
       Files.file_type := lit "application/json";
       Files.file_text := ret (lit "{oops");
       Files.file_ocr := throw OtherValue;
       Files.file_pdf := throw OtherValue |}
  = inl (ErrorObject (lit "Error processing file: Invalid JSON file"))
  /\ exists msg,
      ErrorObject (lit "Error processing file: Invalid JSON file")
      = ErrorObject (lit "Error processing file: " ++ msg).
Proof.
  split; [reflexivity|].
  exact (@read_failures_are_wrapped (fun s => s) (fun _ => None)
           (fun s => s) (fun s => ret s)
           {| Files.file_name := lit "data.json";
              Files.file_type := lit "application/json";
              Files.file_text := ret (lit "{oops");
              Files.file_ocr := throw OtherValue;
              Files.file_pdf := throw OtherValue |}
           _ eq_refl).
Defined.

(** X19.  A file that no entry of the table accepts, by extension or by
    declared type, is refused with [Error processing file: Unsupported
    file type]; the upload handler shows that message and leaves the text
    box alone. *)
Theorem unsupported_file_is_refused :
  forall (toLowerCase : jsstring -> jsstring)
         (pretty_json : jsstring -> option jsstring)
         (html_content : jsstring -> jsstring)
         (xml_content : jsstring -> M jsstring)
         (f : Files.file) (st : State),
    Files.fileType toLowerCase f = None ->
    Files.readFileContent toLowerCase pretty_json html_content xml_content f
    = inl (ErrorObject (lit "Error processing file: Unsupported file type"))
    /\ error (run (handleFileUpload
                     (Some (Files.uploaded toLowerCase pretty_json
                              html_content xml_content f))) st)
       = Some (lit "Error processing file: Unsupported file type")
    /\ queryText (run (handleFileUpload
                         (Some (Files.uploaded toLowerCase pretty_json
                                  html_content xml_content f))) st)
       = queryText st.
Proof.
  intros lower pretty html xml f st H.
  assert (E : Files.readFileContent lower pretty html xml f
              = inl (ErrorObject
                       (lit "Error processing file: Unsupported file type"))).
  { unfold Files.readFileContent. now rewrite H. }
  split; [exact E|]. unfold handleFileUpload, Files.uploaded.
  cbn [Page.readFileContent]. rewrite E. split; reflexivity.
Qed.

Lemma unsupported_file_is_refused_witness :
  Files.fileType (fun s => s)
    {| Files.file_name := lit "setup.exe";
       Files.file_type := lit "application/octet-stream";
       Files.file_text := ret (lit "MZ");
       Files.file_ocr := throw OtherValue;
       Files.file_pdf := throw OtherValue |} = None
  /\ Files.readFileContent (fun s => s) (fun _ => None) (fun s => s)
       (fun s => ret s)
       {| Files.file_name := lit "setup.exe";
          Files.file_type := lit "application/octet-stream";
          Files.file_text := ret (lit "MZ");
          Files.file_ocr := throw OtherValue;
          Files.file_pdf := throw OtherValue |}
     = inl (ErrorObject (lit "Error processing file: Unsupported file type")).
Proof.
  split; [reflexivity|].
  exact (proj1 (@unsupported_file_is_refused (fun s => s) (fun _ => None)
                  (fun s => s) (fun s => ret s)
                  {| Files.file_name := lit "setup.exe";
                     Files.file_type := lit "application/octet-stream";
                     Files.file_text := ret (lit "MZ");
                     Files.file_ocr := throw OtherValue;
                     Files.file_pdf := throw OtherValue |}
                  follow_up_state eq_refl)).
Defined.

(** X20.  The first entry of the table wins: a file whose lower-cased
    name ends with [.txt], or whose declared type is [text/plain], is
    read as plain text, whatever its declared type or its extension say
    otherwise; its text is returned as it is. *)
Theorem plain_text_entry_wins :
  forall (toLowerCase : jsstring -> jsstring)
         (pretty_json : jsstring -> option jsstring)
         (html_content : jsstring -> jsstring)
         (xml_content : jsstring -> M jsstring)
         (f : Files.file),
    Files.ends_with (lit ".txt") (toLowerCase (Files.file_name f)) = true
    \/ Files.file_type f = lit "text/plain" ->
    Files.readFileContent toLowerCase pretty_json html_content xml_content f
    = match Files.file_text f with
      | inr content => inr content
      | inl e =>
          inl (ErrorObject (lit "Error processing file: "
                              ++ message_or (lit "Unknown error") e))
      end.
Proof.
  intros lower pretty html xml f H.
  assert (E : Files.fileType lower f
              = Some (lit "text/plain", ([lit ".txt"], Files.ProcText))).
  { unfold Files.fileType, Files.SUPPORTED_FILE_TYPES.
    cbn [find fst snd existsb]. destruct H as [H|H].
    - now rewrite H.
    - rewrite H, jsstring_eqb_refl. now rewrite orb_true_r. }
  unfold Files.readFileContent. rewrite E. cbn [snd Files.process].
  unfold try_catch. now destruct (Files.file_text f).
Qed.

Lemma plain_text_entry_wins_witness :
  (Files.ends_with (lit ".txt") (lit "data.json") = true
   \/ lit "text/plain" = lit "text/plain")
  /\ Files.readFileContent (fun s => s) (fun _ => None) (fun s => s)
       (fun s => ret s)
       {| Files.file_name := lit "data.json";
          Files.file_type := lit "text/plain";
          Files.file_text := ret (lit "{oops");
          Files.file_ocr := throw OtherValue;
          Files.file_pdf := throw OtherValue |}
     = inr (lit "{oops").
Proof.
  assert (H : Files.ends_with (lit ".txt") (lit "data.json") = true
              \/ lit "text/plain" = lit "text/plain") by (right; reflexivity).
  split; [exact H|].
  exact (@plain_text_entry_wins (fun s => s) (fun _ => None) (fun s => s)
           (fun s => ret s)
           {| Files.file_name := lit "data.json";
              Files.file_type := lit "text/plain";
              Files.file_text := ret (lit "{oops");
              Files.file_ocr := throw OtherValue;
              Files.file_pdf := throw OtherValue |} H).
Defined.

Lemma in_join (c : char) (sep : jsstring) (ls : list jsstring) :
  In c (join sep ls) -> In c sep \/ exists p, In p ls /\ In c p.
Proof.
  induction ls as [|p ls IH]; cbn [join]; [contradiction|].
  destruct ls as [|q ls].
  - intros H. right. exists p. split; [now left|exact H].
  - intros H. apply in_app_or in H. destruct H as [H|H].
    + right. exists p. split; [now left|exact H].
    + apply in_app_or in H. destruct H as [H|H]; [now left|].
      destruct (IH H) as [Hs|(r & Hr & Hc)]; [now left|].
      right. exists r. split; [now right|exact Hc].
Qed.

Lemma split_on_sub (sep c : char) (s p : jsstring) :
  In p (split_on sep s) -> In c p -> In c s.
Proof.
  revert p. induction s as [|x s IH]; cbn [split_on]; intros p Hp Hc.
  - destruct Hp as [<-|[]]. contradiction.
  - destruct (x =? sep)%N.
    + destruct Hp as [<-|Hp]; [contradiction|]. right. now apply (IH p).
    + destruct (split_on sep s) as [|l ls] eqn:E.
      * destruct Hp as [<-|[]]. destruct Hc as [<-|[]]. now left.
      * destruct Hp as [<-|Hp].
        -- destruct Hc as [<-|Hc]; [now left|]. right.
           apply (IH l); [now left|exact Hc].
        -- right. apply (IH p); [now right|exact Hc].
Qed.

(** X21.  The CSV processor leaves no comma in the text and keeps the
    number of lines: every line of the file becomes one line of cells
    separated by blanks. *)
Theorem csv_text_has_no_commas :
  forall text,
    ~ In 0x2C%N (Files.csv_text text)
    /\ length (split_on LF (Files.csv_text text))
       = length (split_on LF text).
Proof.
  intros text. unfold Files.csv_text.
  set (cells := fun line => join [SP] (map trim (split_on 0x2C%N line))).
  assert (Hcomma : forall line, ~ In 0x2C%N (cells line)).
  { intros line H. apply in_join in H.
    destruct H as [[E|[]]|(p & Hp & Hc)]; [discriminate E|].
    apply in_map_iff in Hp. destruct Hp as (cell & <- & Hcell).
    apply in_trim in Hc.
    destruct (split_on_pieces 0x2C%N line) as [_ Hfree].
    rewrite Forall_forall in Hfree. exact (Hfree cell Hcell Hc). }
  assert (Hlf : forall line, ~ In LF line -> ~ In LF (cells line)).
  { intros line Hline H. apply in_join in H.
    destruct H as [[E|[]]|(p & Hp & Hc)]; [discriminate E|].
    apply in_map_iff in Hp. destruct Hp as (cell & <- & Hcell).
    apply in_trim in Hc. apply Hline.
    exact (split_on_sub _ _ _ _ Hcell Hc). }
  split.
  - intros H. apply in_join in H.
    destruct H as [[E|[]]|(p & Hp & Hc)]; [discriminate E|].
    apply in_map_iff in Hp. destruct Hp as (line & <- & _).
    exact (Hcomma line Hc).
  - destruct (split_on_pieces LF text) as [Hne Hfree].
    rewrite split_on_join.
    + apply length_map.
    + destruct (split_on LF text); [contradiction|discriminate].
    + apply Forall_forall. intros p Hp. apply in_map_iff in Hp.
      destruct Hp as (line & <- & Hline). apply Hlf.
      rewrite Forall_forall in Hfree. now apply Hfree.
Qed.

(** ** The normalizer on text without markup *)

(** X22.  A response that is blank, or white space only, is normalized to
    the empty string. *)
Theorem blank_response_normalizes_to_empty :
  forall text, trim text = [] -> standardizeResponse text = [].
Proof.
  intros text H. unfold standardizeResponse, cleanup.
  destruct (negb (truthy text)); [reflexivity|]. now rewrite H.
Qed.

Lemma blank_response_normalizes_to_empty_witness :
  trim ([SP; LF] ++ [0x09%N; CR]) = []
  /\ standardizeResponse ([SP; LF] ++ [0x09%N; CR]) = [].
Proof.
  split; [reflexivity|].
  exact (@blank_response_normalizes_to_empty ([SP; LF] ++ [0x09%N; CR])
           eq_refl).
Defined.

Lemma replace_no_match (m : matcher) (P : char -> bool) :
  (forall b t, forallb P t = true -> m b t = None) ->
  forall s b, forallb P s = true -> replace_from m 0 b s = s.
Proof.
  intros Hm. induction s as [|c s IH]; intros b Hs; [reflexivity|].
  cbn [replace_from]. rewrite (Hm b (c :: s) Hs).
  cbn [forallb] in Hs. apply andb_true_iff in Hs.
  f_equal. now apply IH.
Qed.

Lemma plain_head (c : char) :
  negb (is_markup c) && negb (c =? CR)%N = true ->
  (0x23 =? c)%N = false /\ (0x2A =? c)%N = false /\ (0x2D =? c)%N = false
  /\ (0x3E =? c)%N = false /\ (0x60 =? c)%N = false
  /\ (0x5F =? c)%N = false /\ (0x5B =? c)%N = false
  /\ (c =? 0x60)%N = false /\ (c =? 0x5F)%N = false
  /\ (c =? 0x2A)%N = false /\ (c =? 0x5B)%N = false
  /\ is_digit c = false /\ (CR =? c)%N = false.
Proof.
  intros H.
  assert (Hk : forall k, negb (is_markup k) && negb (k =? CR)%N = false ->
                         (k =? c)%N = false /\ (c =? k)%N = false).
  { intros k Hk. destruct (N.eqb_spec k c) as [->|Hne].
    - rewrite H in Hk. discriminate.
    - split; [reflexivity|]. apply N.eqb_neq. congruence. }
  apply andb_true_iff in H. destruct H as [Hm Hc].
  apply negb_true_iff in Hm. unfold is_markup in Hm.
  repeat (apply orb_false_iff in Hm; destruct Hm as [Hm ?]).
  repeat split; try (apply Hk; reflexivity); assumption.
Qed.

Ltac plain_case :=
  let b := fresh "b" in
  let t := fresh "t" in
  let c := fresh "c" in
  let H := fresh "H" in
  intros b t H; destruct t as [|c t]; [now destruct b|];
  cbn [forallb] in H; apply andb_true_iff in H; destruct H as [H _];
  destruct (plain_head c H)
    as (? & ? & ? & ? & ? & ? & ? & ? & ? & ? & ? & ? & ?).

Lemma plain_marker (marker glyph : jsstring) (a : char) (p : jsstring) :
  marker = a :: p -> In a [0x23%N; 0x2A%N; 0x2D%N; 0x3E%N] ->
  forall b t, markup_free t = true -> re_line_marker marker glyph b t = None.
Proof.
  intros -> Ha. unfold markup_free. plain_case.
  unfold re_line_marker. cbn [strip_prefix].
  replace (a =? c)%N with false; [now destruct b|].
  cbn in Ha. destruct Ha as [<-|[<-|[<-|[<-|[]]]]]; congruence.
Qed.

Lemma plain_numbered (glyph : jsstring) :
  forall b t, markup_free t = true -> re_numbered glyph b t = None.
Proof.
  unfold markup_free. plain_case. unfold re_numbered.
  cbn [take_while]. replace (is_digit c) with false by congruence.
  now destruct b.
Qed.

Lemma plain_delimited (d : char) (open close : jsstring) :
  In d [0x60%N; 0x5F%N; 0x2A%N] ->
  forall b t, markup_free t = true -> re_delimited d open close b t = None.
Proof.
  intros Hd. unfold markup_free. plain_case. unfold re_delimited.
  replace (c =? d)%N with false; [reflexivity|].
  cbn in Hd. destruct Hd as [<-|[<-|[<-|[]]]]; congruence.
Qed.

Lemma plain_doubled (d : char) :
  In d [0x5F%N; 0x2A%N] ->
  forall b t, markup_free t = true -> re_doubled d b t = None.
Proof.
  intros Hd. unfold markup_free. plain_case. unfold re_doubled.
  cbn [strip_prefix]. replace (d =? c)%N with false; [reflexivity|].
  cbn in Hd. destruct Hd as [<-|[<-|[]]]; congruence.
Qed.

Lemma plain_link :
  forall b t, markup_free t = true -> re_link b t = None.
Proof.
  unfold markup_free. plain_case. unfold re_link.
  replace (c =? 0x5B)%N with false by congruence. reflexivity.
Qed.

Lemma plain_fence (open close : jsstring) :
  forall b t, markup_free t = true -> re_code_fence open close b t = None.
Proof.
  unfold markup_free. plain_case. unfold re_code_fence.
  change (lit "```") with [0x60%N; 0x60%N; 0x60%N]. cbn [strip_prefix].
  replace (0x60 =? c)%N with false by congruence. reflexivity.
Qed.

Lemma plain_crlf :
  forall b t, markup_free t = true -> re_crlf b t = None.
Proof.
  unfold markup_free. plain_case. unfold re_crlf. cbn [strip_prefix].
  replace (CR =? c)%N with false by congruence. reflexivity.
Qed.

Lemma replace_plain (m : matcher) :
  (forall b t, markup_free t = true -> m b t = None) ->
  forall s b, markup_free s = true -> replace_from m 0 b s = s.
Proof.
  exact (@replace_no_match m
           (fun c => negb (is_markup c) && negb (c =? CR)%N)).
Qed.

Lemma markup_free_steps (x : jsstring) :
  markup_free x = true ->
  strip_links (strip_emphasis (inline_code (glyph_steps (code_blocks x))))
  = x.
Proof.
  intros H.
  unfold strip_links, strip_emphasis, inline_code, glyph_steps,
    format_quotes, format_lists, format_headers, code_blocks, replace_all.
  rewrite (@replace_plain _ (@plain_fence _ _) x _ H).
  rewrite (@replace_plain _ (@plain_marker (lit "###") _ _ _ eq_refl
                                 ltac:(cbn; tauto)) x _ H).
  rewrite (@replace_plain _ (@plain_marker (lit "##") _ _ _ eq_refl
                                 ltac:(cbn; tauto)) x _ H).
  rewrite (@replace_plain _ (@plain_marker (lit "#") _ _ _ eq_refl
                                 ltac:(cbn; tauto)) x _ H).
  rewrite (@replace_plain _ (@plain_marker (lit "*") _ _ _ eq_refl
                                 ltac:(cbn; tauto)) x _ H).
  rewrite (@replace_plain _ (@plain_marker (lit "-") _ _ _ eq_refl
                                 ltac:(cbn; tauto)) x _ H).
  rewrite (@replace_plain _ (@plain_numbered _) x _ H).
  rewrite (@replace_plain _ (@plain_marker (lit ">") _ _ _ eq_refl
                                 ltac:(cbn; tauto)) x _ H).
  rewrite (@replace_plain _ (@plain_delimited 0x60%N _ _
                                 ltac:(cbn; tauto)) x _ H).
  rewrite (@replace_plain _ (@plain_doubled 0x2A%N ltac:(cbn; tauto))
             x _ H).
  rewrite (@replace_plain _ (@plain_doubled 0x5F%N ltac:(cbn; tauto))
             x _ H).
  rewrite (@replace_plain _ (@plain_delimited 0x2A%N _ _
                                 ltac:(cbn; tauto)) x _ H).
  rewrite (@replace_plain _ (@plain_delimited 0x5F%N _ _
                                 ltac:(cbn; tauto)) x _ H).
  now rewrite (@replace_plain _ plain_link x _ H).
Qed.

Lemma forallb_trim (P : char -> bool) (s : jsstring) :
  forallb P s = true -> forallb P (trim s) = true.
Proof.
  intros H. apply forallb_forall. intros c Hc.
  rewrite forallb_forall in H. apply H. now apply in_trim.
Qed.

Lemma blank_run_keeps (P : char -> bool) (s : jsstring) :
  forall k b, forallb P s = true ->
              forallb P (replace_from re_blank_run k b s) = true.
Proof.
  induction s as [|c s IH]; intros k b H; [reflexivity|].
  cbn [forallb] in H. apply andb_true_iff in H. destruct H as [Hc Hs].
  cbn [replace_from]. destruct k as [|k]; [|now apply IH].
  unfold re_blank_run at 1. cbn [take_while].
  destruct (N.eqb_spec LF c) as [<-|Hne].
  - destruct (3 <=? _)%nat.
    + cbn [app forallb]. rewrite Hc. cbn. now apply IH.
    + cbn [forallb]. rewrite Hc. cbn. now apply IH.
  - cbn [length Nat.leb forallb]. rewrite Hc. cbn. now apply IH.
Qed.

Lemma cleanup_keeps_markup_free (text : jsstring) :
  markup_free text = true ->
  cleanup text = replace_all re_blank_run (trim text)
  /\ markup_free (cleanup text) = true.
Proof.
  intros H. unfold cleanup, replace_all.
  pose proof (forallb_trim _ _ H) as Ht.
  rewrite (@replace_plain _ plain_crlf (trim text) _ Ht).
  split; [reflexivity|]. now apply blank_run_keeps.
Qed.

Lemma split_on_whole (sep : char) (s : jsstring) :
  ~ In sep s -> split_on sep s = [s].
Proof.
  induction s as [|c s IH]; intros H; [reflexivity|]. cbn [split_on].
  destruct (N.eqb_spec c sep) as [->|_]; [exfalso; apply H; now left|].
  rewrite IH; [reflexivity|]. intros Hin. apply H. now right.
Qed.

Lemma blank_run_needs_line_feed (s : jsstring) :
  ~ In LF s -> forall b, replace_from re_blank_run 0 b s = s.
Proof.
  intros H b. apply (replace_no_match _ (fun c => negb (LF =? c)%N)).
  - intros b0 [|c t] Ht; [reflexivity|]. cbn [forallb] in Ht.
    apply andb_true_iff in Ht. destruct Ht as [Hc _].
    apply negb_true_iff in Hc. unfold re_blank_run. cbn [take_while].
    now rewrite Hc.
  - apply forallb_forall. intros c Hc. apply negb_true_iff, N.eqb_neq.
    intros <-. contradiction.
Qed.

(** X23.  Text that holds none of the characters the patterns start with
    ([#], [*], [-], [>], a backquote, [_], a square bracket, a digit) and
    no carriage return only gets its spacing normalized: the result is
    the cleaned-up text with its non-blank lines trimmed and set two line
    feeds apart, and a single such line comes back trimmed. *)
Theorem text_without_markup_is_only_respaced :
  forall text,
    markup_free text = true ->
    standardizeResponse text = respace (cleanup text)
    /\ (~ In LF text -> standardizeResponse text = trim text).
Proof.
  intros text H.
  destruct (cleanup_keeps_markup_free text H) as [Hc Hfree].
  assert (E : standardizeResponse text = respace (cleanup text)).
  { unfold standardizeResponse. destruct text as [|c text]; [reflexivity|].
    cbn [truthy is_empty negb]. cbv zeta.
    fold (glyph_steps (code_blocks (cleanup (c :: text)))).
    now rewrite (markup_free_steps _ Hfree). }
  split; [exact E|]. intros Hlf. rewrite E, Hc. unfold replace_all.
  assert (Ht : ~ In LF (trim text))
    by (intros Hin; apply Hlf; now apply in_trim).
  rewrite (blank_run_needs_line_feed _ Ht). unfold respace.
  rewrite (split_on_whole _ _ Ht). cbn [map filter].
  rewrite trim_idempotent. now destruct (trim text).
Qed.

Lemma text_without_markup_is_only_respaced_witness :
  markup_free (lit "  Paris is the capital of France.  ") = true
  /\ ~ In LF (lit "  Paris is the capital of France.  ")
  /\ standardizeResponse (lit "  Paris is the capital of France.  ")
     = trim (lit "  Paris is the capital of France.  ").
Proof.
  assert (H : ~ In LF (lit "  Paris is the capital of France.  ")).
  { intros Hin. cbn in Hin.
    repeat (destruct Hin as [Hin|Hin]; [discriminate Hin|]). exact Hin. }
  split; [reflexivity|]. split; [exact H|].
  exact (proj2 (@text_without_markup_is_only_respaced
                  (lit "  Paris is the capital of France.  ") eq_refl) H).
Defined.

Lemma span_until (d : char) (t r : jsstring) :
  ~ In d t ->
  take_while (is_not d) (t ++ d :: r) = t
  /\ drop_while (is_not d) (t ++ d :: r) = d :: r.
Proof.
  induction t as [|c t IH]; intros H; cbn [app take_while drop_while];
    unfold is_not at 1 3.
  - rewrite N.eqb_refl. now split.
  - destruct (N.eqb_spec c d) as [->|_]; [exfalso; apply H; now left|].
    cbn [negb]. destruct IH as [-> ->]; [|now split].
    intros Hin. apply H. now right.
Qed.

(** X24.  A markdown link is replaced by its text, and the address is
    dropped. *)
Theorem link_keeps_only_its_text :
  forall t u : jsstring,
    t <> [] -> u <> [] -> ~ In 0x5D%N t -> ~ In 0x29%N u ->
    strip_links (lit "[" ++ t ++ lit "](" ++ u ++ lit ")") = t.
Proof.
  intros t u Ht Hu Hnt Hnu. unfold strip_links.
  change (lit "[" ++ t ++ lit "](" ++ u ++ lit ")")
    with (0x5B%N :: (t ++ 0x5D%N :: (0x28%N :: u ++ 0x29%N :: []))).
  apply replace_whole_text. unfold re_link. rewrite N.eqb_refl.
  destruct (@span_until 0x5D%N t (0x28%N :: u ++ [0x29%N]) Hnt) as [E1 E2].
  destruct (@span_until 0x29%N u [] Hnu) as [E3 E4].
  unfold jsstring, char in *. rewrite E1, E2.
  destruct t as [|c t]; [contradiction|].
  cbn [strip_prefix]. rewrite !N.eqb_refl. rewrite E3, E4.
  destruct u as [|x u]; [contradiction|]. reflexivity.
Qed.

Lemma link_keeps_only_its_text_witness :
  lit "docs" <> [] /\ lit "https://example.org/a_b" <> []
  /\ ~ In 0x5D%N (lit "docs") /\ ~ In 0x29%N (lit "https://example.org/a_b")
  /\ strip_links (lit "[" ++ lit "docs" ++ lit "]("
                    ++ lit "https://example.org/a_b" ++ lit ")")
     = lit "docs".
Proof.
  assert (H1 : lit "docs" <> []) by discriminate.
  assert (H2 : lit "https://example.org/a_b" <> []) by discriminate.
  assert (H3 : ~ In 0x5D%N (lit "docs")).
  { intros Hin. cbn in Hin.
    repeat (destruct Hin as [Hin|Hin]; [discriminate Hin|]). exact Hin. }
  assert (H4 : ~ In 0x29%N (lit "https://example.org/a_b")).
  { intros Hin. cbn in Hin.
    repeat (destruct Hin as [Hin|Hin]; [discriminate Hin|]). exact Hin. }
  repeat (split; [assumption|]).
  exact (@link_keeps_only_its_text (lit "docs")
           (lit "https://example.org/a_b") H1 H2 H3 H4).
Defined.

(** ** Adapters, slots and what is persisted *)

(** X25.  With no Gemini key, or no Perplexity key, configured, nothing is
    sent and the provider's slot of the query ends up reading
    [Error (<provider>): <provider> API key not found], whatever the
    prompt and the network: the updater returns, and the normalizer
    leaves that text unchanged. *)
Theorem missing_key_shows_in_the_slot :
  forall (type_error : value -> key -> jsstring) (keys : api_keys)
         (fetch : request -> M response) (timer_first : request -> bool)
         (st cur : State) (ts : Z) (p : provider) (k : option jsstring),
    guarded_key keys p = Some k -> missing k = true ->
    exists cur' : State,
      settle_provider type_error keys fetch timer_first st ts p cur
      = Some cur'
      /\ Forall (fun q =>
                   timestamp q = ts ->
                   slot (llm_of p) (responses q)
                   = lit "Error (" ++ lit (provider_name p) ++ lit "): "
                       ++ lit (provider_name p) ++ lit " API key not found")
                (queryHistory cur').
Proof.
  intros type_error keys fetch timer_first st cur ts p k Hg Hk.
  unfold settle_provider.
  rewrite (@adapter_missing_key type_error keys (userType st) (queryType st)
             fetch timer_first p (contextualPrompt st) k Hg Hk).
  assert (E : resolved_text (llm_of p)
                (ret (VString (error_text (provider_name p)
                                 (lit (provider_name p)
                                    ++ lit " API key not found"))))
              = inr (lit "Error (" ++ lit (provider_name p) ++ lit "): "
                       ++ lit (provider_name p)
                       ++ lit " API key not found")).
  { destruct p; [discriminate Hg| |]; vm_compute; reflexivity. }
  rewrite (updateResponse_returns ts (llm_of p) _ cur E).
  eexists. split; [reflexivity|].
  cbn [run fold_left apply queryHistory]. apply Forall_forall. intros q Hq.
  apply in_map_iff in Hq. destruct Hq as (q0 & <- & _). intros Hts.
  destruct (update_slot_frame ts (llm_of p)
              (lit "Error (" ++ lit (provider_name p) ++ lit "): "
                 ++ lit (provider_name p) ++ lit " API key not found") q0)
    as (_ & Ht & _ & _ & Hset & _).
  apply Hset. now rewrite <- Ht.
Qed.

Lemma missing_key_shows_in_the_slot_witness :
  guarded_key no_gemini_key GeminiAPI = Some None
  /\ missing None = true
  /\ exists cur' : State,
       settle_provider v8_type_error no_gemini_key
         answers_null_content never_first follow_up_state
         1700000000500 GeminiAPI follow_up_state
       = Some cur'
       /\ Forall (fun q =>
                    timestamp q = 1700000000500%Z ->
                    slot (llm_of GeminiAPI) (responses q)
                    = lit "Error (" ++ lit (provider_name GeminiAPI)
                        ++ lit "): " ++ lit (provider_name GeminiAPI)
                        ++ lit " API key not found")
                 (queryHistory cur').
Proof.
  split; [reflexivity|]. split; [reflexivity|].
  exact (@missing_key_shows_in_the_slot v8_type_error no_gemini_key
           answers_null_content never_first follow_up_state follow_up_state
           1700000000500 GeminiAPI None eq_refl eq_refl).
Defined.

(** X26.  [callOpenAI] does not look at its key: without one it sends the
    request with the header [Bearer undefined], and when the answer is
    well formed it returns the answer's text like with a key. *)
Theorem openai_call_is_sent_without_a_key :
  forall (type_error : value -> key -> jsstring) (keys : api_keys)
         (ut qt : option jsstring) (fetch : request -> M response)
         (timer_first : request -> bool) (prompt : jsstring)
         (r : response) (data v : value),
    openai_key keys = None ->
    timer_first (openai_request keys ut qt prompt) = false ->
    fetch (openai_request keys ut qt prompt) = inr r ->
    ok r = true -> json r = inr data ->
    chat_completion_text type_error data = inr v ->
    req_authorization (openai_request keys ut qt prompt)
    = Some (lit "Bearer undefined")
    /\ callOpenAI type_error keys ut qt fetch timer_first prompt = inr v.
Proof.
  intros type_error keys ut qt fetch timer_first prompt r data v
         Hkey Htimer Hfetch Hok Hjson Htext.
  split.
  - unfold openai_request. cbn [req_authorization]. now rewrite Hkey.
  - unfold callOpenAI, callOpenAI_body, timeoutPromise.
    rewrite Htimer, Hfetch. cbn [bind]. rewrite Hok. cbn [negb].
    rewrite Hjson. cbn [bind]. now rewrite Htext.
Qed.

Lemma openai_call_is_sent_without_a_key_witness :
  callOpenAI v8_type_error
    {| openai_key := None; gemini_key := None; perplexity_key := None |}
    None None
    (fun _ => ret {| ok := true; status := 200; text := ret [];
                     json := ret (VObject
                       [(lit "choices",
                         VArray [VObject
                           [(lit "message",
                             VObject [(lit "content",
                                       VString (lit "Hi"))])]])]) |})
    never_first (lit "Hello")
  = inr (VString (lit "Hi")).
Proof.
  exact (proj2 (@openai_call_is_sent_without_a_key v8_type_error
                  {| openai_key := None; gemini_key := None;
                     perplexity_key := None |}
                  None None
                  (fun _ => ret {| ok := true; status := 200; text := ret [];
                                   json := ret (VObject
                                     [(lit "choices",
                                       VArray [VObject
                                         [(lit "message",
                                           VObject [(lit "content",
                                                     VString (lit "Hi"))])]])])
                                |})
                  never_first (lit "Hello") _ _ _
                  eq_refl eq_refl eq_refl eq_refl eq_refl eq_refl)).
Defined.

(** X27.  A document is handed to the store exactly when a user is
    signed in and [standardizeResponse] returns on each of the three
    results; it then holds the trimmed query text and the three texts the
    slots show.  The record made of the document on the next load has
    the time of storing as timestamp and no parent. *)
Theorem persisted_bundle_is_what_the_slots_show :
  forall (user : option jsstring) (st : State) (rc rp rg : value)
         (stored_at now : Z),
    (forall d : document,
        persisted user st rc rp rg stored_at = Some d ->
        user = Some (doc_userId d)
        /\ query (history_record d) = query (newQuery st now)
        /\ resolved_text Chatgpt (inr rc)
           = inr (chatgpt (responses (history_record d)))
        /\ resolved_text Perplexity (inr rp)
           = inr (perplexity (responses (history_record d)))
        /\ resolved_text Gemini (inr rg)
           = inr (gemini (responses (history_record d)))
        /\ timestamp (history_record d) = stored_at
        /\ parentId (history_record d) = None)
    /\ (persisted user st rc rp rg stored_at = None
        <-> user = None
            \/ exists e, standardize_value rc = inl e
                         \/ standardize_value rp = inl e
                         \/ standardize_value rg = inl e).
Proof.
  intros user st rc rp rg stored_at now. unfold persisted, finalResponses.
  destruct user as [uid|].
  - destruct (standardize_value rc) as [ec|c] eqn:Ec.
    { split; [discriminate|]. split; [|reflexivity].
      intros _. right. exists ec. now left. }
    destruct (standardize_value rp) as [ep|p] eqn:Ep.
    { split; [discriminate|]. split; [|reflexivity].
      intros _. right. exists ep. right. now left. }
    destruct (standardize_value rg) as [eg|g] eqn:Eg.
    { split; [discriminate|]. split; [|reflexivity].
      intros _. right. exists eg. right. now right. }
    split.
    + intros d H. cbn in H. injection H as <-. cbn.
      rewrite Ec, Ep, Eg. repeat split.
    + cbn. split; [discriminate|].
      intros [H|(e & [H|[H|H]])]; discriminate H.
  - split; [discriminate|]. split; [|reflexivity]. intros _. now left.
Qed.

Lemma persisted_bundle_is_what_the_slots_show_witness :
  exists d,
    persisted (Some (lit "u1")) follow_up_state (VString titled) VNull
              (VString (lit "ok")) 1700000002000 = Some d
    /\ resolved_text Chatgpt (inr (VString titled))
       = inr (chatgpt (responses (history_record d)))
    /\ parentId (history_record d) = None.
Proof.
  eexists. split; [reflexivity|].
  match goal with
  | |- context [history_record ?d] =>
      pose proof (proj1 (@persisted_bundle_is_what_the_slots_show
                           (Some (lit "u1")) follow_up_state
                           (VString titled) VNull (VString (lit "ok"))
                           1700000002000 1700000001000) d eq_refl) as H
  end.
  split; [exact (proj1 (proj2 (proj2 H)))|].
  exact (proj2 (proj2 (proj2 (proj2 (proj2 (proj2 H)))))).
Defined.

(** ** What a tile shows *)

(** X28.  Once [handleSearch] has returned, the searching flag is down
    again, so a tile never shows the pulse for the new query: it renders
    the text ['Loading...'] as a plain paragraph.  When a provider's answer
    comes out empty the tile falls back to the waiting notice. *)
Theorem tile_shows_loading_text_not_pulse :
  forall (st : State) (now : Z) (llm : LLM) (outcome : M value),
    truthy (trim (queryText st)) = true ->
    tile llm (step st (Submit now))
    = Rendered [(Plain, lit "Loading...")]
    /\ (resolved_text llm outcome = inr [] ->
        option_map (tile llm)
          (updateResponse now llm outcome (step st (Submit now)))
        = Some Waiting).
Proof.
  intros st now llm outcome Hq.
  assert (Hp : forall h, currentQueries 1 h = firstn 5 h)
    by (intros h; exact (page_is_a_window 0 h)).
  assert (Hflag : isSearching (run (handleSearch st now) st) = false).
  { unfold handleSearch. rewrite Hq. reflexivity. }
  pose proof (history_after_submit st st now Hq) as E.
  unfold step. cbn [handle]. split.
  - unfold tile, tile_response, currentPage.
    rewrite Hflag, Hp, E. cbn [andb firstn nth_error option_map].
    replace (slot llm (responses (newQuery st now))) with (lit "Loading...")
      by (now destruct llm).
    reflexivity.
  - intros Hempty.
    rewrite (updateResponse_returns now llm outcome _ Hempty).
    unfold tile, tile_response, currentPage.
    cbn [option_map run fold_left apply queryHistory isSearching queryText].
    rewrite Hflag, Hp, E. cbn [andb map firstn nth_error option_map].
    unfold update_slot at 1. cbn [timestamp newQuery].
    rewrite Z.eqb_refl. cbn [responses].
    replace (slot llm (set_slot llm [] _)) with (@nil char)
      by (now destruct llm).
    reflexivity.
Qed.

Lemma tile_shows_loading_text_not_pulse_witness :
  truthy (trim (queryText follow_up_state)) = true
  /\ tile Chatgpt (step follow_up_state (Submit 1700000001000))
     = Rendered [(Plain, lit "Loading...")].
Proof.
  split; [reflexivity|].
  exact (proj1 (@tile_shows_loading_text_not_pulse follow_up_state
                  1700000001000 Chatgpt (ret VNull) eq_refl)).
Defined.

(** ** One marked line, from the response to the tile *)

Lemma terminator_free_no_line_feed (s : jsstring) :
  terminator_free s = true -> forallb (is_not LF) s = true.
Proof.
  unfold terminator_free. intros H. apply forallb_forall. intros c Hc.
  rewrite forallb_forall in H. specialize (H c Hc).
  unfold not_line_terminator, is_line_terminator in H. unfold is_not.
  destruct (N.eqb_spec c LF) as [->|]; [discriminate H|reflexivity].
Qed.

Lemma line_needs_no_cleanup (text : jsstring) :
  trim text = text -> terminator_free text = true ->
  code_blocks (cleanup text) = text.
Proof.
  intros Ht Hfree. unfold code_blocks, cleanup, replace_all. rewrite Ht.
  rewrite (@replace_no_match re_crlf not_line_terminator); [| |exact Hfree].
  2:{ intros b [|c t] H; [reflexivity|]. cbn [forallb] in H.
      apply andb_true_iff in H. destruct H as [Hc _].
      unfold re_crlf. cbn [strip_prefix].
      destruct (N.eqb_spec CR c) as [<-|]; [discriminate Hc|reflexivity]. }
  rewrite (@replace_no_match re_blank_run not_line_terminator);
    [| |exact Hfree].
  2:{ intros b [|c t] H; [reflexivity|]. cbn [forallb] in H.
      apply andb_true_iff in H. destruct H as [Hc _].
      unfold re_blank_run. cbn [take_while].
      destruct (N.eqb_spec LF c) as [<-|]; [discriminate Hc|reflexivity]. }
  apply (@replace_no_match _ not_line_terminator); [|exact Hfree].
  intros b t H. unfold re_code_fence.
  destruct (strip_prefix (lit "```") t) as [s1|] eqn:E1; [|reflexivity].
  pose proof (strip_prefix_terminator_free _ _ E1 H) as H1.
  pose proof (drop_while_terminator_free is_lower s1 H1) as H2.
  destruct (drop_while is_lower s1) as [|c s2]; [reflexivity|].
  unfold terminator_free in H2. cbn [forallb] in H2.
  apply andb_true_iff in H2. destruct H2 as [Hc _].
  destruct (N.eqb_spec c LF) as [->|]; [discriminate Hc|reflexivity].
Qed.

Lemma line_glyph_steps (text : jsstring) :
  terminator_free text = true ->
  glyph_steps text = glyph_line text
  /\ terminator_free (glyph_line text) = true.
Proof.
  intros H.
  assert (Hwf : well_formed ([], text)) by (split; [constructor|exact H]).
  destruct (glyph_steps_lines Hwf) as [E [_ Hlast]]. now split.
Qed.

Lemma forallb_take_while (P q : char -> bool) (s : jsstring) :
  forallb P s = true -> forallb P (take_while q s) = true.
Proof.
  induction s as [|c s IH]; cbn; [easy|]. intros H.
  apply andb_true_iff in H. destruct H as [Hc Hs].
  destruct (q c); cbn; [|reflexivity]. now rewrite Hc, IH.
Qed.

Lemma forallb_strip_prefix (P : char -> bool) (p s r : jsstring) :
  strip_prefix p s = Some r -> forallb P s = true -> forallb P r = true.
Proof.
  revert s. induction p as [|a p IH]; intros s H Hs; cbn in H.
  - now injection H as <-.
  - destruct s as [|c s]; [discriminate|].
    destruct (a =? c)%N; [|discriminate].
    cbn in Hs. apply andb_true_iff in Hs. now apply (IH s).
Qed.

Lemma replace_keeps (P : char -> bool) (m : matcher) :
  (forall b s r rest, forallb P s = true -> m b s = Some (r, rest) ->
                      forallb P r = true) ->
  forall s k b, forallb P s = true ->
                forallb P (replace_from m k b s) = true.
Proof.
  intros Hm. induction s as [|c s IH]; intros k b H; [reflexivity|].
  pose proof H as Hall. cbn [forallb] in H.
  apply andb_true_iff in H. destruct H as [Hc Hs].
  cbn [replace_from]. destruct k as [|k]; [|now apply IH].
  destruct (m b (c :: s)) as [[r rest]|] eqn:E.
  - rewrite forallb_app, (Hm _ _ _ _ Hall E). now apply IH.
  - cbn [forallb]. rewrite Hc. now apply IH.
Qed.

(** The patterns that come after the glyph steps: each starts with a
    markup character, and each builds its replacement from the text it
    matched and the two brackets. *)
Lemma later_pattern_facts (P : char -> bool) (m : matcher) :
  P 0x300C%N = true -> P 0x300D%N = true ->
  In m [re_delimited 0x60%N bracket_open bracket_close;
        re_doubled 0x2A%N; re_doubled 0x5F%N;
        re_delimited 0x2A%N [] []; re_delimited 0x5F%N [] []; re_link] ->
  (forall b c s, is_markup c = false -> m b (c :: s) = None)
  /\ (forall b s r rest, forallb P s = true -> m b s = Some (r, rest) ->
                         forallb P r = true).
Proof.
  intros Ho Hc Hm.
  assert (Hk : forall k c, is_markup k = true -> is_markup c = false ->
                           (k =? c)%N = false /\ (c =? k)%N = false).
  { intros k c Hk Hcm. destruct (N.eqb_spec k c) as [->|Hne].
    - congruence.
    - split; [reflexivity|]. apply N.eqb_neq. congruence. }
  assert (Hdel : forall d open close,
             is_markup d = true -> forallb P open = true ->
             forallb P close = true ->
             (forall b c s, is_markup c = false ->
                            re_delimited d open close b (c :: s) = None)
             /\ (forall b s r rest, forallb P s = true ->
                   re_delimited d open close b s = Some (r, rest) ->
                   forallb P r = true)).
  { intros d open close Hd Hop Hcl. split.
    - intros b c s Hcm. unfold re_delimited.
      now rewrite (proj2 (Hk d c Hd Hcm)).
    - intros b s r rest Hs H. unfold re_delimited in H.
      destruct s as [|c s1]; [discriminate|].
      destruct (c =? d)%N; [|discriminate].
      cbn [forallb] in Hs. apply andb_true_iff in Hs. destruct Hs as [_ Hs].
      pose proof (forallb_take_while P (is_not d) s1 Hs) as Ht.
      destruct (take_while (is_not d) s1) as [|x inner]; [discriminate|].
      destruct (drop_while (is_not d) s1); [discriminate|].
      injection H as <- _. rewrite forallb_app, Hop. cbn [andb].
      change (forallb P ((x :: inner) ++ close) = true).
      now rewrite forallb_app, Ht, Hcl. }
  assert (Hdbl : forall d,
             is_markup d = true ->
             (forall b c s, is_markup c = false ->
                            re_doubled d b (c :: s) = None)
             /\ (forall b s r rest, forallb P s = true ->
                   re_doubled d b s = Some (r, rest) ->
                   forallb P r = true)).
  { intros d Hd. split.
    - intros b c s Hcm. unfold re_doubled. cbn [strip_prefix].
      now rewrite (proj1 (Hk d c Hd Hcm)).
    - intros b s r rest Hs H. unfold re_doubled in H.
      destruct (strip_prefix [d; d] s) as [s1|] eqn:E; [|discriminate].
      pose proof (forallb_strip_prefix P _ _ E Hs) as H1.
      pose proof (forallb_take_while P (is_not d) s1 H1) as Ht.
      destruct (take_while (is_not d) s1) as [|x inner]; [discriminate|].
      destruct (strip_prefix [d; d] (drop_while (is_not d) s1));
        [|discriminate].
      now injection H as <- _. }
  cbn [In] in Hm.
  destruct Hm as [<-|[<-|[<-|[<-|[<-|[<-|[]]]]]]].
  - apply Hdel; [reflexivity|cbn; now rewrite Ho|cbn; now rewrite Hc].
  - now apply Hdbl.
  - now apply Hdbl.
  - now apply Hdel.
  - now apply Hdel.
  - split.
    + intros b c s Hcm. unfold re_link.
      now rewrite (proj2 (Hk 0x5B%N c eq_refl Hcm)).
    + intros b s r rest Hs H. unfold re_link in H.
      destruct s as [|c s1]; [discriminate|].
      destruct (c =? 0x5B)%N; [|discriminate].
      cbn [forallb] in Hs. apply andb_true_iff in Hs. destruct Hs as [_ Hs].
      pose proof (forallb_take_while P (is_not 0x5D%N) s1 Hs) as Ht.
      destruct (take_while (is_not 0x5D%N) s1) as [|x inner];
        [discriminate|].
      destruct (strip_prefix [0x5D%N; 0x28%N]
                  (drop_while (is_not 0x5D%N) s1)) as [s2|]; [|discriminate].
      destruct (take_while (is_not 0x29%N) s2); [discriminate|].
      destruct (drop_while (is_not 0x29%N) s2); [discriminate|].
      now injection H as <- _.
Qed.

Lemma later_pattern_keeps_glyph (m : matcher) (G : jsstring) :
  In m [re_delimited 0x60%N bracket_open bracket_close;
        re_doubled 0x2A%N; re_doubled 0x5F%N;
        re_delimited 0x2A%N [] []; re_delimited 0x5F%N [] []; re_link] ->
  forallb (fun c => negb (is_markup c)) G = true ->
  forall s,
    (exists Y, s = G ++ Y) /\ forallb (is_not LF) s = true ->
    (exists Y, replace_all m s = G ++ Y)
    /\ forallb (is_not LF) (replace_all m s) = true.
Proof.
  intros Hm HG s [[Y ->] Hfree].
  destruct (@later_pattern_facts (is_not LF) m eq_refl eq_refl Hm)
    as [Hhead Hrepl].
  split; [|now apply replace_keeps].
  unfold replace_all. generalize true. clear Hfree.
  induction G as [|g G IH]; intros b; [now eexists|].
  cbn [forallb] in HG. apply andb_true_iff in HG. destruct HG as [Hg HG].
  apply negb_true_iff in Hg. cbn [app replace_from].
  rewrite (Hhead b g (G ++ Y) Hg).
  destruct (IH HG (is_line_terminator g)) as [Y' ->]. now exists Y'.
Qed.

Lemma trim_keeps_edges (s : jsstring) :
  match s with [] => True | c :: _ => is_white_space c = false end ->
  match rev s with [] => True | c :: _ => is_white_space c = false end ->
  trim s = s.
Proof.
  intros Hh Hl. unfold trim.
  rewrite (drop_while_fixed _ _ Hh), (drop_while_fixed _ _ Hl).
  apply rev_involutive.
Qed.

Lemma trimmed_edges (s : jsstring) :
  trim s = s ->
  match s with [] => True | c :: _ => is_white_space c = false end
  /\ match rev s with [] => True | c :: _ => is_white_space c = false end.
Proof.
  intros H. unfold trim in H.
  set (a := drop_while is_white_space s) in *.
  set (b := drop_while is_white_space (rev a)) in *.
  assert (Hb : match b with [] => True | c :: _ => is_white_space c = false end)
    by apply drop_while_head.
  assert (Hrs : rev s = b) by (rewrite <- H; apply rev_involutive).
  split; [|now rewrite Hrs].
  assert (Ha : match a with [] => True | c :: _ => is_white_space c = false end)
    by apply drop_while_head.
  destruct (drop_while_suffix is_white_space (rev a)) as [pre E].
  fold b in E. rewrite <- Hrs in E. apply (f_equal (@rev char)) in E.
  rewrite rev_involutive, rev_app_distr, rev_involutive in E.
  destruct s as [|c s]; [exact I|]. rewrite E in Ha. exact Ha.
Qed.

Lemma trim_after_marker (M rest : jsstring) :
  match M with [] => False | c :: _ => is_white_space c = false end ->
  rest <> [] -> trim rest = rest -> trim (M ++ rest) = M ++ rest.
Proof.
  intros HM Hne Ht. destruct (@trimmed_edges rest Ht) as [_ Hlast].
  apply trim_keeps_edges.
  - destruct M as [|c M]; [contradiction|exact HM].
  - rewrite rev_app_distr. destruct (rev rest) as [|c r] eqn:E.
    + apply (f_equal (@rev char)) in E. rewrite rev_involutive in E.
      contradiction.
    + exact Hlast.
Qed.

Lemma trim_keeps_glyph (G Y : jsstring) :
  G <> [] ->
  forallb (fun c => negb (is_white_space c)) G = true ->
  exists Y', trim (G ++ Y) = G ++ Y' /\ (forall c, In c Y' -> In c Y).
Proof.
  intros Hne HG. unfold trim.
  assert (Hhead : match G ++ Y with
                  | [] => True
                  | c :: _ => is_white_space c = false
                  end).
  { destruct G as [|g G]; [contradiction|]. cbn in HG |- *.
    apply andb_true_iff in HG. now apply negb_true_iff. }
  rewrite (drop_while_fixed _ _ Hhead), rev_app_distr.
  assert (Hrev : forall x y,
             y <> [] ->
             forallb (fun c => negb (is_white_space c)) y = true ->
             drop_while is_white_space (x ++ y)
             = drop_while is_white_space x ++ y).
  { intros x y Hy Hally. induction x as [|c x IH]; cbn.
    - destruct y as [|c y]; [contradiction|]. cbn in Hally |- *.
      apply andb_true_iff in Hally. destruct Hally as [Hc _].
      apply negb_true_iff in Hc. now rewrite Hc.
    - now destruct (is_white_space c). }
  rewrite Hrev.
  - rewrite rev_app_distr, rev_involutive. eexists. split; [reflexivity|].
    intros c Hc. apply in_rev in Hc. apply in_drop_while in Hc.
    now apply in_rev in Hc.
  - intros E. apply (f_equal (@rev char)) in E.
    rewrite rev_involutive in E. contradiction.
  - apply forallb_forall. intros c Hc. apply in_rev in Hc.
    rewrite forallb_forall in HG. now apply HG.
Qed.

(** A one-line response whose glyph line starts with [G] comes out as one
    paragraph that starts with [G]. *)
Lemma one_marked_line (text G R : jsstring) :
  text <> [] -> trim text = text -> terminator_free text = true ->
  glyph_line text = G ++ R ->
  G <> [] ->
  forallb (fun c => negb (is_markup c)) G = true ->
  forallb (fun c => negb (is_white_space c)) G = true ->
  exists Y, paragraphs (standardizeResponse text) = [G ++ Y].
Proof.
  intros Hne Ht Hfree Hline HG Hmark Hws.
  destruct (@line_glyph_steps text Hfree) as [Esteps Hfree'].
  assert (E : standardizeResponse text
              = respace (strip_links (strip_emphasis
                  (inline_code (glyph_line text))))).
  { unfold standardizeResponse. destruct text as [|c text]; [contradiction|].
    cbn [truthy is_empty negb]. cbv zeta.
    fold (glyph_steps (code_blocks (cleanup (c :: text)))).
    now rewrite (@line_needs_no_cleanup _ Ht Hfree), Esteps. }
  assert (Hstart : (exists Y, glyph_line text = G ++ Y)
                   /\ forallb (is_not LF) (glyph_line text) = true).
  { split; [now exists R|now apply terminator_free_no_line_feed]. }
  unfold strip_links, strip_emphasis, inline_code in E.
  repeat match type of E with
         | context [replace_all ?m ?s] =>
             match goal with
             | H : (exists Y, s = G ++ Y) /\ _ |- _ =>
                 let H' := fresh "Hnext" in
                 pose proof (@later_pattern_keeps_glyph m G
                               ltac:(cbn [In]; tauto) Hmark s H) as H';
                 clear H;
                 let x := fresh "x" in
                 set (x := replace_all m s) in *
             end
         end.
  match goal with
  | H : (exists Y, ?s = G ++ Y) /\ forallb (is_not LF) ?s = true |- _ =>
      destruct H as [[Y EY] HLF]; rewrite EY in E, HLF
  end.
  assert (Hno : ~ In LF (G ++ Y)).
  { intros Hin. rewrite forallb_forall in HLF. specialize (HLF LF Hin).
    discriminate HLF. }
  unfold respace in E. rewrite (@split_on_whole _ _ Hno) in E.
  cbn [map] in E.
  destruct (@trim_keeps_glyph G Y HG Hws) as (Y' & Etrim & Hsub).
  rewrite Etrim in E.
  assert (Etruthy : truthy (G ++ Y') = true)
    by (destruct G; [contradiction|reflexivity]).
  cbn [filter] in E. rewrite Etruthy in E. cbn [join] in E.
  exists Y'. rewrite E. apply paragraphs_of_piece.
  intros Hin. apply Hno. apply in_or_app. apply in_app_or in Hin.
  destruct Hin as [Hin|Hin]; [now left|right; now apply Hsub].
Qed.

Lemma digit_is_plain (d : char) :
  is_digit d = true ->
  is_white_space d = false /\ not_line_terminator d = true.
Proof.
  unfold is_digit. intros H. apply andb_true_iff in H.
  destruct H as [H1 H2]. apply N.leb_le in H1. apply N.leb_le in H2.
  unfold not_line_terminator, is_white_space, is_line_terminator.
  repeat match goal with
         | |- context [(d =? ?k)%N] =>
             destruct (N.eqb_spec d k); [exfalso; lia|]
         end.
  destruct (N.leb_spec 0x2000 d); [exfalso; lia|]. now split.
Qed.

Lemma digits_terminator_free (ds : jsstring) :
  forallb is_digit ds = true -> terminator_free ds = true.
Proof.
  unfold terminator_free. intros H. apply forallb_forall. intros c Hc.
  rewrite forallb_forall in H. now apply digit_is_plain, H.
Qed.

(** X3.  A response that is one line with a markdown marker and a title
    is rendered as exactly one paragraph in the style of the marker:
    [# ] gives a first-level heading, [## ] a second, [### ] a third,
    [- ], [* ] and a number with a full stop a list item, [> ] a note
    box. *)
Theorem marked_line_renders_in_its_style :
  forall rest : jsstring,
    rest <> [] -> trim rest = rest -> terminator_free rest = true ->
    (exists p, paragraphs (standardizeResponse (lit "# " ++ rest)) = [p]
               /\ paragraph_style p = Heading1)
    /\ (exists p, paragraphs (standardizeResponse (lit "## " ++ rest)) = [p]
                  /\ paragraph_style p = Heading2)
    /\ (exists p, paragraphs (standardizeResponse (lit "### " ++ rest)) = [p]
                  /\ paragraph_style p = Heading3)
    /\ (exists p, paragraphs (standardizeResponse (lit "- " ++ rest)) = [p]
                  /\ paragraph_style p = ListItem)
    /\ (exists p, paragraphs (standardizeResponse (lit "* " ++ rest)) = [p]
                  /\ paragraph_style p = ListItem)
    /\ (exists p, paragraphs (standardizeResponse (lit "> " ++ rest)) = [p]
                  /\ paragraph_style p = NoteBox)
    /\ (forall d ds,
           forallb is_digit (d :: ds) = true ->
           exists p,
             paragraphs (standardizeResponse
                           ((d :: ds) ++ lit ". " ++ rest)) = [p]
             /\ paragraph_style p = ListItem).
Proof.
  intros rest Hne Ht Hfree.
  assert (Hmarker : forall M G,
             match M with [] => False | c :: _ => is_white_space c = false end ->
             terminator_free M = true ->
             glyph_line (M ++ rest) = G ++ SP :: rest ->
             G <> [] ->
             forallb (fun c => negb (is_markup c)) G = true ->
             forallb (fun c => negb (is_white_space c)) G = true ->
             exists Y, paragraphs (standardizeResponse (M ++ rest))
                       = [G ++ Y]).
  { intros M G HM HMfree Hline HG Hmark Hws.
    apply (@one_marked_line (M ++ rest) G (SP :: rest)); try assumption.
    - destruct M; [contradiction|discriminate].
    - now apply trim_after_marker.
    - now apply terminator_free_app. }
  repeat split.
  - destruct (Hmarker (lit "# ") glyph_large) as [Y E];
      try reflexivity; try discriminate.
    exists (glyph_large ++ Y). now split.
  - destruct (Hmarker (lit "## ") glyph_medium) as [Y E];
      try reflexivity; try discriminate.
    exists (glyph_medium ++ Y). now split.
  - destruct (Hmarker (lit "### ") glyph_small) as [Y E];
      try reflexivity; try discriminate.
    exists (glyph_small ++ Y). now split.
  - destruct (Hmarker (lit "- ") glyph_bullet) as [Y E];
      try reflexivity; try discriminate.
    exists (glyph_bullet ++ Y). now split.
  - destruct (Hmarker (lit "* ") glyph_bullet) as [Y E];
      try reflexivity; try discriminate.
    exists (glyph_bullet ++ Y). now split.
  - destruct (Hmarker (lit "> ") glyph_note) as [Y E];
      try reflexivity; try discriminate.
    exists (glyph_note ++ Y). now split.
  - intros d ds Hd.
    pose proof Hd as Hhead. cbn [forallb] in Hhead.
    apply andb_true_iff in Hhead. destruct Hhead as [Hhead _].
    destruct (digit_is_plain d Hhead) as [Hws _].
    destruct (@one_marked_line ((d :: ds) ++ lit ". " ++ rest) glyph_pin
                (SP :: (d :: ds) ++ lit ". " ++ rest)) as [Y E];
      try reflexivity; try discriminate.
    + rewrite app_assoc. apply trim_after_marker; assumption.
    + apply terminator_free_app; [now apply digits_terminator_free|].
      now apply (@terminator_free_app (lit ". ") rest).
    + now apply numbered_line_gets_pin.
    + exists (glyph_pin ++ Y). now split.
Qed.

Lemma marked_line_renders_in_its_style_witness :
  lit "Title" <> [] /\ trim (lit "Title") = lit "Title"
  /\ terminator_free (lit "Title") = true
  /\ exists p, paragraphs (standardizeResponse (lit "# " ++ lit "Title"))
               = [p]
               /\ paragraph_style p = Heading1.
Proof.
  assert (H : lit "Title" <> []) by discriminate.
  split; [exact H|]. split; [reflexivity|]. split; [reflexivity|].
  exact (proj1 (@marked_line_renders_in_its_style (lit "Title") H
                  eq_refl eq_refl)).
Defined.

(** ** The normalizer applied to its own output *)














